(** * Todry: the task/category repository of [src/App.tsx]

    A shallow embedding of the state held by the [App] component and of its
    event handlers, followed by the properties of the archival model.

    Every handler of the component runs to completion on the state of the
    last render, so a handler is a function [State -> State].  Inside a
    handler the component's variables ([tasks], [categories],
    [activeCategory], [lastDeletedTask], ...) are the values of the last
    render, and every [setX(prev => ...)] receives the current value of [X];
    both are projections of the state the handler is applied to, since no
    handler updates the same variable twice.  The handlers are those of the
    last render, as the buttons and the inputs of the page have them; the
    listener of the keyboard can hold an older [openAddSheet], which is
    [openAddSheetSeen] below.

    Not modelled: rendering, sounds, confetti, the theme, the side bar, the
    swipe state, [localStorage] and timers.  The toast timers only hide the
    toast ([setIsToastActive(false)]); that transition is [dismissToast]. *)

From Stdlib Require Import List String Ascii Bool Arith ZArith QArith.
From Stdlib Require Import Qround Qpower Qabs Lqa.
From Stdlib Require Import DecimalString Permutation Lia NArith.
From Stdlib Require DecimalPos DecimalZ Floats Uint63.
Import ListNotations.

Close Scope Q_scope.
Open Scope string_scope.

(** ** JavaScript strings and truthiness

    A string is a sequence of code units; the embedding keeps the code units
    below 256 (one [ascii] each). *)

(** [!!s] for a string: only the empty string is falsy. *)
Definition truthy (s : string) : bool := negb (s =? "").

(** [a || b] on strings, with [None] for [undefined]. *)
Definition orElse (a : option string) (b : string) : string :=
  match a with
  | Some v => if truthy v then v else b
  | None => b
  end.

(** White space and line terminators of [String.prototype.trim] below 256:
    TAB, LF, VT, FF, CR, SP and NBSP. *)
Definition isWhiteSpace (c : ascii) : bool :=
  let n := nat_of_ascii c in
  (((9 <=? n) && (n <=? 13)) || (n =? 32) || (n =? 160))%nat.

Fixpoint trimStart (s : string) : string :=
  match s with
  | EmptyString => EmptyString
  | String c r => if isWhiteSpace c then trimStart r else s
  end.

Fixpoint trimEnd (s : string) : string :=
  match s with
  | EmptyString => EmptyString
  | String c r =>
      let r' := trimEnd r in
      if isWhiteSpace c && (r' =? "") then EmptyString else String c r'
  end.

Definition trim (s : string) : string := trimEnd (trimStart s).

(** [toLowerCase] on code units below 256: A-Z, and the Latin-1 capitals
    U+00C0-U+00DE except the multiplication sign U+00D7. *)
Definition lowerChar (c : ascii) : ascii :=
  let n := nat_of_ascii c in
  if (((65 <=? n) && (n <=? 90))
      || ((192 <=? n) && (n <=? 222) && negb (n =? 215)))%nat
  then ascii_of_nat (n + 32) else c.

Fixpoint toLowerCase (s : string) : string :=
  match s with
  | EmptyString => EmptyString
  | String c r => String (lowerChar c) (toLowerCase r)
  end.

(** [s.includes(sub)]. *)
Fixpoint includes (s sub : string) : bool :=
  String.prefix sub s
  || match s with
     | EmptyString => false
     | String _ r => includes r sub
     end.

(** [Array.prototype.includes] on an array of strings. *)
Definition includesStr (l : list string) (x : string) : bool :=
  existsb (fun c => c =? x) l.

(** ['task_' + Date.now()], the clock value being an argument. *)
Definition taskId (now : Z) : string :=
  "task_" ++ NilZero.string_of_int (Z.to_int now).

(** ** Data model *)

Inductive Priority : Set := Low | Medium | High.

Record Task : Set := mkTask {
  id : string;
  text : string;
  description : option string;
  completed : bool;
  category : string;
  priority : Priority;
  dueDate : option Z;
  createdAt : Z
}.

Inductive SheetMode : Set := ADD_TASK | EDIT_TASK | ADD_CATEGORY | VIEW_TASK.

(** The [useState] cells of [App] that the handlers below read or write. *)
Record State : Set := mkState {
  tasks : list Task;
  categories : list string;
  archivedTasks : list Task;
  archivedCategories : list string;
  activeCategory : string;
  searchQuery : string;
  sheetMode : SheetMode;
  editingTaskId : option string;
  textInput : string;
  descriptionInput : string;
  selectedCategory : string;
  selectedPriority : Priority;
  selectedDueDate : option Z;
  isToastActive : bool;
  toastMessage : string;
  lastDeletedTask : option Task;
  lastDeletedCategory : option string
}.

Definition DEFAULT_CATEGORIES : list string := [].

(** The state of a user with nothing saved: the initial values of the
    [useState] calls, [getInitialTasks] and its siblings returning their
    defaults. *)
Definition initialState : State :=
  {| tasks := [];
     categories := DEFAULT_CATEGORIES;
     archivedTasks := [];
     archivedCategories := [];
     activeCategory := "All";
     searchQuery := "";
     sheetMode := ADD_TASK;
     editingTaskId := None;
     textInput := "";
     descriptionInput := "";
     selectedCategory := "Personal";
     selectedPriority := Medium;
     selectedDueDate := None;
     isToastActive := false;
     toastMessage := "Archived successfully";
     lastDeletedTask := None;
     lastDeletedCategory := None |}.

(** ** State setters

    [setX f s] is React's [setX(prev => f prev)]; [setX (fun _ => v)] is
    [setX(v)]. *)

Definition setTasks (f : list Task -> list Task) (s : State) : State :=
  mkState (f (tasks s)) (categories s) (archivedTasks s)
    (archivedCategories s) (activeCategory s) (searchQuery s) (sheetMode s)
    (editingTaskId s) (textInput s) (descriptionInput s) (selectedCategory s)
    (selectedPriority s) (selectedDueDate s) (isToastActive s)
    (toastMessage s) (lastDeletedTask s) (lastDeletedCategory s).

Definition setCategories (f : list string -> list string) (s : State)
  : State :=
  mkState (tasks s) (f (categories s)) (archivedTasks s)
    (archivedCategories s) (activeCategory s) (searchQuery s) (sheetMode s)
    (editingTaskId s) (textInput s) (descriptionInput s) (selectedCategory s)
    (selectedPriority s) (selectedDueDate s) (isToastActive s)
    (toastMessage s) (lastDeletedTask s) (lastDeletedCategory s).

Definition setArchivedTasks (f : list Task -> list Task) (s : State)
  : State :=
  mkState (tasks s) (categories s) (f (archivedTasks s))
    (archivedCategories s) (activeCategory s) (searchQuery s) (sheetMode s)
    (editingTaskId s) (textInput s) (descriptionInput s) (selectedCategory s)
    (selectedPriority s) (selectedDueDate s) (isToastActive s)
    (toastMessage s) (lastDeletedTask s) (lastDeletedCategory s).

Definition setArchivedCategories (f : list string -> list string)
  (s : State) : State :=
  mkState (tasks s) (categories s) (archivedTasks s)
    (f (archivedCategories s)) (activeCategory s) (searchQuery s)
    (sheetMode s) (editingTaskId s) (textInput s) (descriptionInput s)
    (selectedCategory s) (selectedPriority s) (selectedDueDate s)
    (isToastActive s) (toastMessage s) (lastDeletedTask s)
    (lastDeletedCategory s).

Definition setActiveCategory (v : string) (s : State) : State :=
  mkState (tasks s) (categories s) (archivedTasks s)
    (archivedCategories s) v (searchQuery s) (sheetMode s)
    (editingTaskId s) (textInput s) (descriptionInput s) (selectedCategory s)
    (selectedPriority s) (selectedDueDate s) (isToastActive s)
    (toastMessage s) (lastDeletedTask s) (lastDeletedCategory s).

Definition setSearchQuery (v : string) (s : State) : State :=
  mkState (tasks s) (categories s) (archivedTasks s)
    (archivedCategories s) (activeCategory s) v (sheetMode s)
    (editingTaskId s) (textInput s) (descriptionInput s) (selectedCategory s)
    (selectedPriority s) (selectedDueDate s) (isToastActive s)
    (toastMessage s) (lastDeletedTask s) (lastDeletedCategory s).

Definition setSheetMode (v : SheetMode) (s : State) : State :=
  mkState (tasks s) (categories s) (archivedTasks s)
    (archivedCategories s) (activeCategory s) (searchQuery s) v
    (editingTaskId s) (textInput s) (descriptionInput s) (selectedCategory s)
    (selectedPriority s) (selectedDueDate s) (isToastActive s)
    (toastMessage s) (lastDeletedTask s) (lastDeletedCategory s).

Definition setEditingTaskId (v : option string) (s : State) : State :=
  mkState (tasks s) (categories s) (archivedTasks s)
    (archivedCategories s) (activeCategory s) (searchQuery s) (sheetMode s)
    v (textInput s) (descriptionInput s) (selectedCategory s)
    (selectedPriority s) (selectedDueDate s) (isToastActive s)
    (toastMessage s) (lastDeletedTask s) (lastDeletedCategory s).

Definition setTextInput (v : string) (s : State) : State :=
  mkState (tasks s) (categories s) (archivedTasks s)
    (archivedCategories s) (activeCategory s) (searchQuery s) (sheetMode s)
    (editingTaskId s) v (descriptionInput s) (selectedCategory s)
    (selectedPriority s) (selectedDueDate s) (isToastActive s)
    (toastMessage s) (lastDeletedTask s) (lastDeletedCategory s).

Definition setDescriptionInput (v : string) (s : State) : State :=
  mkState (tasks s) (categories s) (archivedTasks s)
    (archivedCategories s) (activeCategory s) (searchQuery s) (sheetMode s)
    (editingTaskId s) (textInput s) v (selectedCategory s)
    (selectedPriority s) (selectedDueDate s) (isToastActive s)
    (toastMessage s) (lastDeletedTask s) (lastDeletedCategory s).

Definition setSelectedCategory (v : string) (s : State) : State :=
  mkState (tasks s) (categories s) (archivedTasks s)
    (archivedCategories s) (activeCategory s) (searchQuery s) (sheetMode s)
    (editingTaskId s) (textInput s) (descriptionInput s) v
    (selectedPriority s) (selectedDueDate s) (isToastActive s)
    (toastMessage s) (lastDeletedTask s) (lastDeletedCategory s).

Definition setSelectedPriority (v : Priority) (s : State) : State :=
  mkState (tasks s) (categories s) (archivedTasks s)
    (archivedCategories s) (activeCategory s) (searchQuery s) (sheetMode s)
    (editingTaskId s) (textInput s) (descriptionInput s) (selectedCategory s)
    v (selectedDueDate s) (isToastActive s)
    (toastMessage s) (lastDeletedTask s) (lastDeletedCategory s).

Definition setSelectedDueDate (v : option Z) (s : State) : State :=
  mkState (tasks s) (categories s) (archivedTasks s)
    (archivedCategories s) (activeCategory s) (searchQuery s) (sheetMode s)
    (editingTaskId s) (textInput s) (descriptionInput s) (selectedCategory s)
    (selectedPriority s) v (isToastActive s)
    (toastMessage s) (lastDeletedTask s) (lastDeletedCategory s).

Definition setIsToastActive (v : bool) (s : State) : State :=
  mkState (tasks s) (categories s) (archivedTasks s)
    (archivedCategories s) (activeCategory s) (searchQuery s) (sheetMode s)
    (editingTaskId s) (textInput s) (descriptionInput s) (selectedCategory s)
    (selectedPriority s) (selectedDueDate s) v
    (toastMessage s) (lastDeletedTask s) (lastDeletedCategory s).

Definition setToastMessage (v : string) (s : State) : State :=
  mkState (tasks s) (categories s) (archivedTasks s)
    (archivedCategories s) (activeCategory s) (searchQuery s) (sheetMode s)
    (editingTaskId s) (textInput s) (descriptionInput s) (selectedCategory s)
    (selectedPriority s) (selectedDueDate s) (isToastActive s)
    v (lastDeletedTask s) (lastDeletedCategory s).

Definition setLastDeletedTask (v : option Task) (s : State) : State :=
  mkState (tasks s) (categories s) (archivedTasks s)
    (archivedCategories s) (activeCategory s) (searchQuery s) (sheetMode s)
    (editingTaskId s) (textInput s) (descriptionInput s) (selectedCategory s)
    (selectedPriority s) (selectedDueDate s) (isToastActive s)
    (toastMessage s) v (lastDeletedCategory s).

Definition setLastDeletedCategory (v : option string) (s : State) : State :=
  mkState (tasks s) (categories s) (archivedTasks s)
    (archivedCategories s) (activeCategory s) (searchQuery s) (sheetMode s)
    (editingTaskId s) (textInput s) (descriptionInput s) (selectedCategory s)
    (selectedPriority s) (selectedDueDate s) (isToastActive s)
    (toastMessage s) (lastDeletedTask s) v.

(** [setToastMessage(m); setIsToastActive(true)], the two calls every
    handler below ends with (the timer that follows is not modelled). *)
Definition showToast (m : string) (s : State) : State :=
  setIsToastActive true (setToastMessage m s).

(** The toast's close button, the Escape key on an open toast and the
    toast's timer: [setIsToastActive(false)]. *)
Definition dismissToast (s : State) : State := setIsToastActive false s.

(** ** The editing sheet *)

Definition isMode (m m' : SheetMode) : bool :=
  match m, m' with
  | ADD_TASK, ADD_TASK | EDIT_TASK, EDIT_TASK
  | ADD_CATEGORY, ADD_CATEGORY | VIEW_TASK, VIEW_TASK => true
  | _, _ => false
  end.

(** The timer callback of [toggleSheet(false)]. *)
Definition sheetClosed (s : State) : State :=
  setSelectedDueDate None
    (setDescriptionInput "" (setTextInput "" (setEditingTaskId None s))).

Definition openAddSheet (s : State) : State :=
  let s := setSheetMode ADD_TASK s in
  let s := setEditingTaskId None s in
  let s := setTextInput "" s in
  let s := setDescriptionInput "" s in
  let s := setSelectedDueDate None s in
  let s :=
    setSelectedCategory
      (if activeCategory s =? "All" then "Personal" else activeCategory s) s in
  setSelectedPriority Medium s.

(** [openEditSheet(task)] with its default mode, and [openViewSheet(task)]:
    the two differ in the mode only.  [task.description || ''] is the
    description, or the empty string when it is missing. *)
Definition openTaskSheet (mode : SheetMode) (task : Task) (s : State)
  : State :=
  let s := setSheetMode mode s in
  let s := setEditingTaskId (Some (id task)) s in
  let s := setTextInput (text task) s in
  let s := setDescriptionInput (orElse (description task) "") s in
  let s := setSelectedDueDate (dueDate task) s in
  let s := setSelectedCategory (category task) s in
  setSelectedPriority (priority task) s.

Definition openEditSheet : Task -> State -> State := openTaskSheet EDIT_TASK.
Definition openViewSheet : Task -> State -> State := openTaskSheet VIEW_TASK.

Definition openAddCategorySheet (s : State) : State :=
  setTextInput "" (setSheetMode ADD_CATEGORY s).

(** The fields [handleSave] writes into the task being edited. *)
Definition editTask (s : State) (t : Task) : Task :=
  {| id := id t;
     text := trim (textInput s);
     description := Some (trim (descriptionInput s));
     completed := completed t;
     category := selectedCategory s;
     priority := selectedPriority s;
     dueDate := selectedDueDate s;
     createdAt := createdAt t |}.

(** The task [handleSave] creates; [nowId] and [nowCreated] are the two
    readings of [Date.now()]. *)
Definition newTask (nowId nowCreated : Z) (s : State) : Task :=
  {| id := taskId nowId;
     text := trim (textInput s);
     description := Some (trim (descriptionInput s));
     completed := false;
     category := selectedCategory s;
     priority := selectedPriority s;
     dueDate := selectedDueDate s;
     createdAt := nowCreated |}.

(** [editingTaskId] as a condition: neither [null] nor the empty string. *)
Definition editingId (s : State) : option string :=
  match editingTaskId s with
  | Some i => if truthy i then Some i else None
  | None => None
  end.

Definition handleSave (nowId nowCreated : Z) (s : State) : State :=
  if negb (truthy (trim (textInput s))) then s
  else if isMode (sheetMode s) ADD_CATEGORY then
    if negb (includesStr (categories s) (trim (textInput s)))
    then setCategories (fun prev => (prev ++ [trim (textInput s)])%list) s
    else s
  else
    match isMode (sheetMode s) EDIT_TASK, editingId s with
    | true, Some i =>
        setTasks (map (fun t => if id t =? i then editTask s t else t)) s
    | _, _ =>
        setTasks (fun prev => newTask nowId nowCreated s :: prev) s
    end.

(** ** Tasks *)

Definition toggleComplete (i : string) (s : State) : State :=
  match find (fun t => id t =? i) (tasks s) with
  | None => s
  | Some _ =>
      setTasks
        (map (fun t =>
                if id t =? i
                then mkTask (id t) (text t) (description t)
                       (negb (completed t)) (category t) (priority t)
                       (dueDate t) (createdAt t)
                else t)) s
  end.

Definition updateTaskDate (taskId : string) (newDate : Z) (s : State)
  : State :=
  setTasks
    (map (fun t =>
            if id t =? taskId
            then mkTask (id t) (text t) (description t) (completed t)
                   (category t) (priority t) (Some newDate) (createdAt t)
            else t)) s.

Definition deleteTask (i : string) (s : State) : State :=
  match find (fun t => id t =? i) (tasks s) with
  | Some taskToDelete =>
      let s := setArchivedTasks (fun prev => taskToDelete :: prev) s in
      let s := setTasks (filter (fun t => negb (id t =? i))) s in
      let s := setLastDeletedTask (Some taskToDelete) s in
      showToast "Task archived" s
  | None => s
  end.

(** [lastDeletedCategory] as a condition: neither [null] nor the empty
    string. *)
Definition pendingCategory (s : State) : option string :=
  match lastDeletedCategory s with
  | Some c => if truthy c then Some c else None
  | None => None
  end.

Definition undoDelete (s : State) : State :=
  match lastDeletedTask s with
  | Some last =>
      let s := setArchivedTasks (filter (fun t => negb (id t =? id last))) s in
      let s := setTasks (fun prev => last :: prev) s in
      let s := setLastDeletedTask None s in
      setIsToastActive false s
  | None =>
      match pendingCategory s with
      | Some last =>
          let s := setArchivedCategories (filter (fun c => negb (c =? last))) s in
          let s := setCategories (fun prev => (prev ++ [last])%list) s in
          let s := setLastDeletedCategory None s in
          setIsToastActive false s
      | None => s
      end
  end.

(** ** Categories *)

(** [categories.find(c => c !== cat) || 'General']. *)
Definition fallbackCategory (cat : string) (cats : list string) : string :=
  orElse (find (fun c => negb (c =? cat)) cats) "General".

(** [{ ...t, category: c }]. *)
Definition withCategory (c : string) (t : Task) : Task :=
  mkTask (id t) (text t) (description t) (completed t) c (priority t)
    (dueDate t) (createdAt t).

Definition deleteCategory (cat : string) (s0 : State) : State :=
  let s := setArchivedCategories (fun prev => cat :: prev) s0 in
  let s := setLastDeletedCategory (Some cat) s in
  let s := setCategories (filter (fun c => negb (c =? cat))) s in
  let fallback := fallbackCategory cat (categories s0) in
  let s :=
    setTasks
      (map (fun t => if category t =? cat then withCategory fallback t else t))
      s in
  let s := if activeCategory s0 =? cat then setActiveCategory "All" s else s in
  showToast ("'" ++ cat ++ "' archived") s.

(** ** The archive *)

Definition restoreTaskFromArchive (task : Task) (s : State) : State :=
  let s := setArchivedTasks (filter (fun t => negb (id t =? id task))) s in
  let s := setTasks (fun prev => task :: prev) s in
  showToast "Task restored" s.

Definition restoreCategoryFromArchive (cat : string) (s : State) : State :=
  let s := setArchivedCategories (filter (fun c => negb (c =? cat))) s in
  let s := setCategories (fun prev => (prev ++ [cat])%list) s in
  showToast ("'" ++ cat ++ "' restored") s.

Definition permanentlyDeleteTask (i : string) (s : State) : State :=
  let s := setArchivedTasks (filter (fun t => negb (id t =? i))) s in
  showToast "Permanently deleted" s.

Definition permanentlyDeleteCategory (cat : string) (s : State) : State :=
  let s := setArchivedCategories (filter (fun c => negb (c =? cat))) s in
  showToast "Permanently deleted" s.

(** ** Numbers

    A JavaScript number is a double (IEEE 754 binary64).  A finite double
    is the rational it stands for, and an operation on doubles is the exact
    operation followed by the rounding to the nearest double, the even one
    in a tie.  Overflow and subnormal numbers are left out: the numbers of
    this program are lengths of arrays, their quotients and the product of
    such a quotient by 100, whose magnitudes are far from both. *)

(** The whole number nearest to [x], the even one in a tie. *)
Definition roundHalfEven (x : Q) : Z :=
  let f := Qfloor x in
  match ((x - inject_Z f) ?= (1 # 2))%Q with
  | Lt => f
  | Gt => (f + 1)%Z
  | Eq => if Z.even f then f else (f + 1)%Z
  end.

(** The exponent [e] of a positive [x]: [2^e <= x < 2^(e+1)]. *)
Definition binade (x : Q) : Z :=
  let e := (Z.log2 (Qnum x) - Z.log2 (Z.pos (Qden x)))%Z in
  if Qle_bool (2 ^ e)%Q x then e else (e - 1)%Z.

(** A positive [x] with its significand rounded to 53 bits. *)
Definition roundPositive (x : Q) : Q :=
  (inject_Z (roundHalfEven (x * 2 ^ (52 - binade x)))
   * 2 ^ (binade x - 52))%Q.

(** The double nearest to [x]. *)
Definition round64 (x : Q) : Q :=
  let x := Qred x in
  match (0 ?= x)%Q with
  | Eq => 0%Q
  | Lt => roundPositive x
  | Gt => (- roundPositive (- x))%Q
  end.

(** [a / b] and [a * b] on numbers. *)
Definition numDiv (a b : Q) : Q := round64 (a / b)%Q.
Definition numMul (a b : Q) : Q := round64 (a * b)%Q.

(** ** Computed data *)

Record CategoryStat : Set := mkStat {
  name : string;
  count : nat;
  progress : Q
}.

(** Number of tasks of [ts] in category [cat], and how many of those are
    completed. *)
Definition catTasks (cat : string) (ts : list Task) : list Task :=
  filter (fun t => category t =? cat) ts.

Definition completedCount (cat : string) (ts : list Task) : nat :=
  List.length (filter (fun t => completed t) (catTasks cat ts)).

(** [(completed / length) * 100] on numbers; a length is a whole number,
    which is a double as it is. *)
Definition percentage (completed length : nat) : Q :=
  numMul (numDiv (inject_Z (Z.of_nat completed)) (inject_Z (Z.of_nat length)))
    100%Q.

(** [catTasks.length === 0 ? 0 : (completed / catTasks.length) * 100]. *)
Definition progressOf (cat : string) (ts : list Task) : Q :=
  if (List.length (catTasks cat ts) =? 0)%nat then 0%Q
  else percentage (completedCount cat ts) (List.length (catTasks cat ts)).

Definition categoryStats (s : State) : list CategoryStat :=
  map (fun cat =>
         {| name := cat;
            count := List.length (catTasks cat (tasks s));
            progress := progressOf cat (tasks s) |})
      (categories s).

Definition filteredTasks (s : State) : list Task :=
  filter (fun t =>
            let matchesCategory :=
              (activeCategory s =? "All") || (category t =? activeCategory s) in
            let matchesSearch :=
              includes (toLowerCase (text t)) (toLowerCase (searchQuery s)) in
            matchesCategory && matchesSearch)
         (tasks s).

(** The [onReorder] callback of the task list. *)
Definition onReorder (newOrder : list Task) (s : State) : State :=
  if (activeCategory s =? "All") && negb (truthy (searchQuery s))
  then setTasks (fun _ => newOrder) s
  else s.

(** ** Backup import

    What [FileReader] and [JSON.parse] hand to the callback of
    [importTasks].  A field of a parsed object is missing, holds a falsy
    value ([null], [false], [0] or the empty string), or holds an array;
    the embedding keeps the arrays that have the type the state expects
    ([Task[]] for [tasks], [string[]] for [categories]; an array is truthy
    even when empty). *)
Inductive Field (A : Type) : Type :=
| Missing : Field A
| Falsy : Field A
| Present : A -> Field A.

Arguments Missing {A}.
Arguments Falsy {A}.
Arguments Present {A} _.

Inductive Backup : Type :=
| Unparseable : Backup
    (** [JSON.parse] throws *)
| JsonNull : Backup
    (** the text [null]: reading [data.tasks] throws *)
| JsonScalar : Backup
    (** a number, a string, a boolean or an array: no such fields *)
| JsonObject : Field (list Task) -> Field (list string) -> Backup.

(** Outcome of the [try] block: the state and whether the [catch] branch
    ran. *)
Inductive ImportResult : Type :=
| Restored : State -> ImportResult
| MalformedBackup : State -> ImportResult.

Definition stateOf (r : ImportResult) : State :=
  match r with Restored s | MalformedBackup s => s end.

(** [if (data.f) setF(data.f)]. *)
Definition setIfTruthy {A : Type} (f : Field A) (set : (A -> A) -> State -> State)
  (s : State) : State :=
  match f with
  | Present v => set (fun _ => v) s
  | Missing | Falsy => s
  end.

Definition importTasks (data : Backup) (s : State) : ImportResult :=
  match data with
  | Unparseable | JsonNull =>
      MalformedBackup (showToast "Invalid backup file" s)
  | JsonScalar => Restored (showToast "Backup restored!" s)
  | JsonObject ts cs =>
      let s := setIfTruthy ts setTasks s in
      let s := setIfTruthy cs setCategories s in
      Restored (showToast "Backup restored!" s)
  end.

(** The object [exportTasks] serialises (its [exportedAt] field is not read
    back by [importTasks]). *)
Definition exportTasks (s : State) : Backup :=
  JsonObject (Present (tasks s)) (Present (categories s)).

(** ** Reachable states

    The states the component can be driven into from [initialState], one
    constructor per handler, with the condition under which the interface
    offers the handler: a swipe or a click on a displayed entry, a pill of
    the sheet, a permutation of the displayed list for a drag.  The task
    list is displayed unless the archive page is, the archive entries are
    displayed on the archive page only, and the RESTORE button is pressed
    on a toast that is showing. *)
Definition displayed (s : State) (t : Task) : Prop :=
  activeCategory s <> "Archive" /\ In t (filteredTasks s).

Definition inArchivePage (s : State) : Prop := activeCategory s = "Archive".

Inductive reachable : State -> Prop :=
| reach_init : reachable initialState
| reach_setTextInput s v :
    reachable s -> reachable (setTextInput v s)
| reach_setDescriptionInput s v :
    reachable s -> reachable (setDescriptionInput v s)
| reach_setSelectedCategory s c :
    reachable s -> In c (categories s) -> reachable (setSelectedCategory c s)
| reach_setSelectedPriority s p :
    reachable s -> reachable (setSelectedPriority p s)
| reach_setSelectedDueDate s d :
    reachable s -> reachable (setSelectedDueDate d s)
| reach_setSearchQuery s q :
    reachable s -> reachable (setSearchQuery q s)
| reach_viewAll s :
    reachable s -> reachable (setActiveCategory "All" s)
| reach_viewArchive s :
    reachable s -> reachable (setActiveCategory "Archive" s)
| reach_viewCategory s c :
    reachable s -> In c (categories s) -> reachable (setActiveCategory c s)
| reach_openAddSheet s :
    reachable s -> reachable (openAddSheet s)
| reach_openEditSheet s t :
    reachable s -> displayed s t -> reachable (openEditSheet t s)
| reach_openViewSheet s t :
    reachable s -> displayed s t -> reachable (openViewSheet t s)
| reach_editFromView s :
    reachable s -> sheetMode s = VIEW_TASK ->
    reachable (setSheetMode EDIT_TASK s)
| reach_openAddCategorySheet s :
    reachable s -> reachable (openAddCategorySheet s)
| reach_sheetClosed s :
    reachable s -> reachable (sheetClosed s)
| reach_handleSave s nowId nowCreated :
    reachable s -> reachable (handleSave nowId nowCreated s)
| reach_toggleComplete s t :
    reachable s -> displayed s t -> reachable (toggleComplete (id t) s)
| reach_updateTaskDate s t d :
    reachable s -> displayed s t ->
    reachable (updateTaskDate (id t) d s)
| reach_deleteTask s t :
    reachable s -> displayed s t -> reachable (deleteTask (id t) s)
| reach_undoDelete s :
    reachable s -> isToastActive s = true -> reachable (undoDelete s)
| reach_dismissToast s :
    reachable s -> reachable (dismissToast s)
| reach_deleteCategory s c :
    reachable s -> In c (categories s) -> reachable (deleteCategory c s)
| reach_restoreTask s t :
    reachable s -> inArchivePage s -> In t (archivedTasks s) ->
    reachable (restoreTaskFromArchive t s)
| reach_restoreCategory s c :
    reachable s -> inArchivePage s -> In c (archivedCategories s) ->
    reachable (restoreCategoryFromArchive c s)
| reach_purgeTask s t :
    reachable s -> inArchivePage s -> In t (archivedTasks s) ->
    reachable (permanentlyDeleteTask (id t) s)
| reach_purgeCategory s c :
    reachable s -> inArchivePage s -> In c (archivedCategories s) ->
    reachable (permanentlyDeleteCategory c s)
| reach_import s data :
    reachable s -> reachable (stateOf (importTasks data s))
| reach_reorder s newOrder :
    reachable s -> activeCategory s <> "Archive" ->
    Permutation newOrder (filteredTasks s) ->
    reachable (onReorder newOrder s).

(** ** The repository's vocabulary

    Notions the properties below are stated with. *)

(** Every active task names an active category. *)
Definition tasksLinked (s : State) : Prop :=
  forall t, In t (tasks s) -> In (category t) (categories s).

(** The value a field of a backup gives to a collection: its array, or
    the current collection when there is none. *)
Definition fieldOr {A : Type} (f : Field A) (current : A) : A :=
  match f with
  | Present v => v
  | Missing | Falsy => current
  end.

(** The field is in the parsed object, whatever it holds
    (['f' in data]). *)
Definition hasField {A : Type} (f : Field A) : bool :=
  match f with
  | Missing => false
  | Falsy | Present _ => true
  end.

(** The import took the [catch] branch. *)
Definition reportedMalformed (r : ImportResult) : Prop :=
  match r with
  | MalformedBackup _ => True
  | Restored _ => False
  end.

(** The collections a backup leads to are linked. *)
Definition backupLinked (data : Backup) (s : State) : Prop :=
  match data with
  | JsonObject ts cs =>
      forall t, In t (fieldOr ts (tasks s)) ->
                In (category t) (fieldOr cs (categories s))
  | Unparseable | JsonNull | JsonScalar => tasksLinked s
  end.

(** The first name of [cats] other than [cat]. *)
Fixpoint firstOther (cat : string) (cats : list string) : option string :=
  match cats with
  | [] => None
  | c :: rest => if string_dec c cat then firstOther cat rest else Some c
  end.

(** The fallback as the specification words it: the first other active
    category, or "General" when there is none. *)
Definition firstOtherOrGeneral (cat : string) (cats : list string) : string :=
  match firstOther cat cats with
  | Some c => c
  | None => "General"
  end.

(** The same, an empty name counting as no category. *)
Definition firstNamedOtherOrGeneral (cat : string) (cats : list string)
  : string :=
  match firstOther cat cats with
  | Some c => if string_dec c "" then "General" else c
  | None => "General"
  end.

(** The cascade on one task: a task of category [cat] moves to [fallback],
    any other task is left as it is. *)
Definition reassign (cat fallback : string) (t : Task) : Task :=
  if string_dec (category t) cat
  then {| id := id t; text := text t; description := description t;
          completed := completed t; category := fallback;
          priority := priority t; dueDate := dueDate t;
          createdAt := createdAt t |}
  else t.





(** Number of tasks of [ts] whose category is [c], and number of those that
    are completed. *)
Fixpoint tasksIn (c : string) (ts : list Task) : nat :=
  match ts with
  | [] => 0
  | t :: rest =>
      (if string_dec (category t) c then 1 else 0) + tasksIn c rest
  end.

Fixpoint completedIn (c : string) (ts : list Task) : nat :=
  match ts with
  | [] => 0
  | t :: rest =>
      (if string_dec (category t) c
       then if completed t then 1 else 0
       else 0) + completedIn c rest
  end.

(** The value of a double of the kernel, none for an infinity or a NaN;
    and [(c / n) * 100] computed on the doubles of the kernel. *)
Definition binary64Value (f : PrimFloat.float) : option Q :=
  match FloatOps.Prim2SF f with
  | SpecFloat.S754_zero _ => Some 0%Q
  | SpecFloat.S754_finite sign m e =>
      Some ((if sign then -1 else 1) * inject_Z (Z.pos m) * 2 ^ e)%Q
  | _ => None
  end.

Definition binary64OfZ (k : Z) : PrimFloat.float :=
  PrimFloat.of_uint63 (Uint63.of_Z k).

Definition binary64Percentage (c n : Z) : option Q :=
  binary64Value
    (PrimFloat.mul (PrimFloat.div (binary64OfZ c) (binary64OfZ n))
       (binary64OfZ 100)).

(** [(c / n) * 100] on numbers is what the doubles of the kernel give. *)
Definition agreesWithBinary64 (c n : Z) : bool :=
  match binary64Percentage c n with
  | Some q => Qeq_bool q (numMul (numDiv (inject_Z c) (inject_Z n)) 100%Q)
  | None => false
  end.

(** The pairs [(c, n)] with [c <= n] and [1 <= n <= k], and some pairs of
    larger counts. *)
Definition countPairs (k : nat) : list (Z * Z) :=
  flat_map (fun n => map (fun c => (Z.of_nat c, Z.of_nat n)) (seq 0 (S n)))
    (seq 1 k).

Definition largeCounts : list (Z * Z) :=
  [(1, 1000); (7, 1000); (333, 1000); (999, 1000); (1, 65536);
   (12345, 65537); (1000003, 1000033); (123456789, 987654321);
   (1, 4294967295); (2147483647, 4294967295); (4294967294, 4294967295);
   (3037000499, 4294967291)]%Z.

(** ** Example sessions *)

(** A new space, typed into the sheet and saved. *)
Definition addCategory (c : string) (s : State) : State :=
  handleSave 0 0 (setTextInput c (openAddCategorySheet s)).

(** A fresh user saves a first objective: there is no space yet, and the
    sheet proposes "Personal". *)
Definition firstTaskSession : State :=
  handleSave 1 1 (setTextInput "Ship v1" (openAddSheet initialState)).

(** One space, "Work", and the objective [shipV1] in it. *)
Definition workOnly : State :=
  handleSave 7 7
    (setTextInput "Ship v1"
       (setSelectedCategory "Work"
          (openAddSheet (addCategory "Work" initialState)))).

(** Two spaces, "Work" and "Home". *)
Definition twoSpaces : State :=
  addCategory "Home" (addCategory "Work" initialState).

(** "Work" swiped away, the archive page opened. *)
Definition workArchived : State :=
  setActiveCategory "Archive" (deleteCategory "Work" twoSpaces).

Definition shipV1 : Task :=
  {| id := "task_7"; text := "Ship v1"; description := Some "";
     completed := false; category := "Work"; priority := Medium;
     dueDate := None; createdAt := 7 |}.

(** Two spaces and the objective [shipV1] in "Work". *)
Definition oneTask : State :=
  handleSave 7 7
    (setTextInput "Ship v1" (setSelectedCategory "Work" (openAddSheet twoSpaces))).

Definition buyMilk : Task :=
  {| id := "task_9"; text := "Buy milk"; description := Some "";
     completed := false; category := "Home"; priority := Medium;
     dueDate := None; createdAt := 9 |}.

(** A second objective, [buyMilk] in "Home", on top of [shipV1]. *)
Definition twoTasks : State :=
  handleSave 9 9
    (setTextInput "Buy milk" (setSelectedCategory "Home" (openAddSheet oneTask))).

(** [shipV1] archived, the archive page opened. *)
Definition taskArchived : State :=
  setActiveCategory "Archive" (deleteTask "task_7" oneTask).

Definition shipV1Done : Task :=
  {| id := "task_7"; text := "Ship v1"; description := Some "";
     completed := true; category := "Work"; priority := Medium;
     dueDate := None; createdAt := 7 |}.

(** [shipV1] restored from the archive page and ticked in the list; then
    "Home" swiped away and RESTORE pressed on its toast. *)
Definition restoredTwice : State :=
  undoDelete
    (deleteCategory "Home"
       (toggleComplete "task_7"
          (setActiveCategory "All"
             (restoreTaskFromArchive shipV1 taskArchived)))).

(** A backup of [oneTask] is taken, [shipV1] is archived, and the backup
    is imported: [shipV1] is active again and still archived. *)
Definition backupImported : State :=
  stateOf (importTasks (exportTasks oneTask) (deleteTask "task_7" oneTask)).

(** Twenty objectives in "Work", the first eleven of them completed,
    brought in by a backup. *)
Definition twentyTasks : list Task :=
  map (fun k =>
         {| id := taskId (Z.of_nat k); text := "Objective";
            description := Some ""; completed := (k <=? 11)%nat;
            category := "Work"; priority := Medium; dueDate := None;
            createdAt := Z.of_nat k |})
      (seq 1 20).

Definition elevenOfTwenty : State :=
  stateOf
    (importTasks (JsonObject (Present twentyTasks) (Present ["Work"]))
       initialState).

(** A backup whose second space has an empty name, imported by a fresh
    user. *)
Definition emptyNameBackup : Backup :=
  JsonObject (Present [shipV1]) (Present ["Work"; ""]).

Definition emptyNameImported : State :=
  stateOf (importTasks emptyNameBackup initialState).

(** ** The keyboard shortcut for a new task

    The key [n] calls the [openAddSheet] of the render in which the
    [keydown] listener was registered.  The effect registers it again when
    [isSheetOpen], [textInput], [selectedCategory], [selectedPriority],
    [sheetMode], [searchQuery] or [isToastActive] change; [activeCategory]
    is not in that list, so after a change of view alone the listener still
    holds the [openAddSheet] of the render before it.  [seen] is the
    [activeCategory] of that render; the setters act on the current
    state. *)
Definition openAddSheetSeen (seen : string) (s : State) : State :=
  let s := setSheetMode ADD_TASK s in
  let s := setEditingTaskId None s in
  let s := setTextInput "" s in
  let s := setDescriptionInput "" s in
  let s := setSelectedDueDate None s in
  let s :=
    setSelectedCategory (if seen =? "All" then "Personal" else seen) s in
  setSelectedPriority Medium s.

(** The task the key [n] files after "Home" has been chosen. *)
Definition callAnn : Task :=
  {| id := "task_11"; text := "Call Ann"; description := Some "";
     completed := false; category := "Personal"; priority := Medium;
     dueDate := None; createdAt := 11 |}.

(** ** Relative time and the due-date shortcuts

    [Date.now()] and the timestamps are whole numbers of milliseconds, on
    which [Math.floor(x / k)] is the integer quotient rounded down. *)



(** The constant [daysUntilWeekend] of [getWeekend], [day] being
    [d.getDay()] (0 for Sunday to 6 for Saturday). *)
Definition daysUntilWeekend (day : Z) : Z :=
  if (day =? 6)%Z then 7%Z else (6 - day)%Z.

(** ** Accounts *)

(** [ToInt32]: the value modulo 2^32, taken in [-2^31, 2^31). *)
Definition toInt32 (z : Z) : Z :=
  let m := (z mod 4294967296)%Z in
  if (m <? 2147483648)%Z then m else (m - 4294967296)%Z.

(** One round of the loop of [simpleHash]:
    [hash = ((hash << 5) - hash) + char; hash = hash & hash]. *)
Definition hashStep (hash : Z) (char : ascii) : Z :=
  let hash :=
    (toInt32 (Z.shiftl (toInt32 hash) 5) - hash
     + Z.of_nat (nat_of_ascii char))%Z in
  Z.land (toInt32 hash) (toInt32 hash).

Fixpoint hashLoop (hash : Z) (str : string) : Z :=
  match str with
  | EmptyString => hash
  | String char rest => hashLoop (hashStep hash char) rest
  end.

(** The digit [n] (below 36) of [toString(36)]: 0-9, then a-z. *)
Definition digit36 (n : N) : ascii :=
  if (n <? 10)%N then ascii_of_N (48 + n) else ascii_of_N (87 + n).

(** The digits of [n] in base 36 put in front of [acc], the most
    significant first; [fuel] bounds the number of digits. *)
Fixpoint digits36 (fuel : nat) (n : N) (acc : string) : string :=
  match fuel with
  | O => acc
  | S fuel' =>
      let acc' := String (digit36 (n mod 36)) acc in
      if (n / 36 =? 0)%N then acc' else digits36 fuel' (n / 36) acc'
  end.

(** [z.toString(36)] for a whole number [z]; a number has no more digits in
    base 36 than it has bits. *)
Definition toString36 (z : Z) : string :=
  if (z <? 0)%Z
  then "-" ++ digits36 (S (N.size_nat (Z.to_N (- z)))) (Z.to_N (- z)) ""
  else digits36 (S (N.size_nat (Z.to_N z))) (Z.to_N z) "".

Definition simpleHash (str : string) : string :=
  toString36 (hashLoop 0 str).

Module Auth.

Record User : Set := mkUser {
  id : string;
  username : string;
  passwordHash : string;
  createdAt : Z
}.

(** The sign-in form, the session, and the two entries of [localStorage]
    the account handlers use: [chatdo_users] (read by [getUsers], the
    empty list when missing) and [chatdo_current_user]. *)
Record Session : Set := mkSession {
  users : list User;
  storedUser : option User;
  currentUser : option User;
  authError : string;
  authUsername : string;
  authPassword : string
}.

Definition setAuthError (e : string) (a : Session) : Session :=
  mkSession (users a) (storedUser a) (currentUser a) e (authUsername a)
    (authPassword a).

(** [setCurrentUser(u); setAuthUsername(''); setAuthPassword('');
    setAuthError('')], after the two [localStorage.setItem]. *)
Definition signedIn (us : list User) (u : User) : Session :=
  mkSession us (Some u) (Some u) "" "" "".

(** [users.find(u => u.username.toLowerCase() ===
    authUsername.toLowerCase())]. *)
Definition findUser (name : string) (us : list User) : option User :=
  find (fun u => toLowerCase (username u) =? toLowerCase name) us.

Definition handleSignup (nowId nowCreated : Z) (a : Session) : Session :=
  if negb (truthy (trim (authUsername a)))
     || negb (truthy (trim (authPassword a)))
  then setAuthError "Username and password required" a
  else if includes (authUsername a) " "
  then setAuthError "Username cannot contain spaces" a
  else if (String.length (authPassword a) <? 4)%nat
  then setAuthError "Password must be at least 4 characters" a
  else
    match findUser (authUsername a) (users a) with
    | Some _ => setAuthError "Username already exists" a
    | None =>
        let newUser :=
          {| id := toString36 nowId;
             username := trim (authUsername a);
             passwordHash := simpleHash (authPassword a);
             createdAt := nowCreated |} in
        signedIn (users a ++ [newUser])%list newUser
    end.

Definition handleLogin (a : Session) : Session :=
  if negb (truthy (trim (authUsername a)))
     || negb (truthy (trim (authPassword a)))
  then setAuthError "Username and password required" a
  else
    match findUser (authUsername a) (users a) with
    | Some user =>
        if negb (passwordHash user =? simpleHash (authPassword a))
        then setAuthError "Invalid username or password" a
        else signedIn (users a) user
    | None => setAuthError "Invalid username or password" a
    end.

Definition handleLogout (a : Session) : Session :=
  mkSession (users a) None None (authError a) (authUsername a)
    (authPassword a).

(** The two inputs of the form: the typed value, and the error cleared. *)
Definition typeUsername (v : string) (a : Session) : Session :=
  mkSession (users a) (storedUser a) (currentUser a) "" v (authPassword a).

Definition typePassword (v : string) (a : Session) : Session :=
  mkSession (users a) (storedUser a) (currentUser a) "" (authUsername a) v.

(** No two accounts have the same name, letter case apart. *)
Definition distinctNames (us : list User) : Prop :=
  NoDup (map (fun u => toLowerCase (username u)) us).

End Auth.

(** ** Vocabulary of the further properties *)

(** The polynomial [31^n h + 31^(n-1) c1 + ... + cn] over the code units of
    a string, in unbounded integers. *)
Fixpoint polyHash (h : Z) (str : string) : Z :=
  match str with
  | EmptyString => h
  | String c rest => polyHash (31 * h + Z.of_nat (nat_of_ascii c))%Z rest
  end.

(** The value of a digit of base 36, and of a string of such digits read
    after the value [acc]. *)
Definition digitValue (c : ascii) : N :=
  let n := N_of_ascii c in
  if (n <? 58)%N then (n - 48)%N else (n - 87)%N.

Fixpoint fromDigits36 (acc : N) (s : string) : N :=
  match s with
  | EmptyString => acc
  | String c rest => fromDigits36 (acc * 36 + digitValue c)%N rest
  end.

(** A string made of white space only. *)
Fixpoint blank (s : string) : bool :=
  match s with
  | EmptyString => true
  | String c rest => isWhiteSpace c && blank rest
  end.

(** Nobody signed in, no account yet, an empty form; then "Bob" typed with
    the password "AaAa". *)
Definition noAccount : Auth.Session :=
  Auth.mkSession [] None None "" "" "".

Definition bobForm : Auth.Session :=
  Auth.typePassword "AaAa" (Auth.typeUsername "Bob" noAccount).

(** What [handleSignup] asks of the form: a name and a password that are
    not blank, no space in the name, four code units of password at least,
    and a name that no account has, letter case apart. *)
Definition signupAllowed (a : Auth.Session) : Prop :=
  blank (Auth.authUsername a) = false
  /\ blank (Auth.authPassword a) = false
  /\ (forall x y, Auth.authUsername a <> x ++ " " ++ y)
  /\ 4 <= String.length (Auth.authPassword a)
  /\ (forall u, In u (Auth.users a) ->
        toLowerCase (Auth.username u) <> toLowerCase (Auth.authUsername a)).

(** The account [handleSignup] creates. *)
Definition signupUser (nowId nowCreated : Z) (a : Auth.Session) : Auth.User :=
  {| Auth.id := toString36 nowId;
     Auth.username := trim (Auth.authUsername a);
     Auth.passwordHash := simpleHash (Auth.authPassword a);
     Auth.createdAt := nowCreated |}.

(** A rejected submission: the table, the session and the form are as they
    were, and an error is shown. *)
Definition rejected (a a' : Auth.Session) : Prop :=
  Auth.users a' = Auth.users a
  /\ Auth.storedUser a' = Auth.storedUser a
  /\ Auth.currentUser a' = Auth.currentUser a
  /\ Auth.authUsername a' = Auth.authUsername a
  /\ Auth.authPassword a' = Auth.authPassword a
  /\ Auth.authError a' <> "".

(** [u] is the first account of the table whose name is [name], letter
    case apart. *)
Definition firstNamed (name : string) (us : list Auth.User) (u : Auth.User)
  : Prop :=
  exists before after,
    us = (before ++ u :: after)%list
    /\ (forall v, In v before ->
          toLowerCase (Auth.username v) <> toLowerCase name)
    /\ toLowerCase (Auth.username u) = toLowerCase name.

(** What [handleLogin] asks before it signs [u] in: a name and a password
    that are not blank, [u] the first account with the typed name, and the
    fingerprint of the typed password the one stored for [u]. *)
Definition loginAllowed (a : Auth.Session) (u : Auth.User) : Prop :=
  blank (Auth.authUsername a) = false
  /\ blank (Auth.authPassword a) = false
  /\ firstNamed (Auth.authUsername a) (Auth.users a) u
  /\ Auth.passwordHash u = simpleHash (Auth.authPassword a).

(** Bob has signed up and logged out; then "Ann" fills the form, or
    somebody who asks for the name "BOB". *)
Definition bobOnly : Auth.Session :=
  Auth.handleLogout (Auth.handleSignup 5 6 bobForm).

Definition annForm : Auth.Session :=
  Auth.typePassword "secret" (Auth.typeUsername "Ann" bobOnly).

Definition secondBobForm : Auth.Session :=
  Auth.typePassword "secret" (Auth.typeUsername "BOB" bobOnly).

(** No name is carried by two categories of the repository, active or
    archived. *)
Definition namesDistinct (s : State) : Prop :=
  NoDup (categories s ++ archivedCategories s)%list.

(** No identifier is carried by two tasks of the repository, active or
    archived. *)
Definition idsDistinct (s : State) : Prop :=
  NoDup (map id (tasks s ++ archivedTasks s)%list).

(** * Properties *)

(** ** Basic facts about lists of tasks and names *)

(** Case analysis on two names being equal, the test [a =? b] of the
    code being rewritten to its value in each case. *)
Ltac name_cases a b :=
  let E := fresh "E" in
  destruct (string_dec a b) as [E | E];
  [ let E' := fresh "E" in
    assert (E' : (a =? b) = true) by (now apply String.eqb_eq);
    rewrite ?E'; clear E'
  | let E' := fresh "E" in
    assert (E' : (a =? b) = false) by (now apply String.eqb_neq);
    rewrite ?E'; clear E' ].

Lemma eqb_neq_true (a b : string) : negb (a =? b) = true <-> a <> b.
Proof.
  rewrite negb_true_iff. apply String.eqb_neq.
Qed.

Lemma in_filter_ne (c x : string) (l : list string) :
  In x (filter (fun y => negb (y =? c)) l) <-> In x l /\ x <> c.
Proof.
  rewrite filter_In, eqb_neq_true. tauto.
Qed.

Lemma in_filter_id (i : string) (u : Task) (l : list Task) :
  In u (filter (fun t => negb (id t =? i)) l) <-> In u l /\ id u <> i.
Proof.
  rewrite filter_In, eqb_neq_true. tauto.
Qed.

Lemma includes_empty (s : string) : includes s "" = true.
Proof.
  destruct s; reflexivity.
Qed.

Lemma filter_all {A : Type} (p : A -> bool) (l : list A) :
  (forall x, In x l -> p x = true) -> filter p l = l.
Proof.
  induction l as [|a l IH]; simpl; intros H; [reflexivity|].
  rewrite (H a (or_introl eq_refl)). f_equal. apply IH. auto.
Qed.

(** A task whose identifier is unused is not touched by a filter on that
    identifier. *)
Lemma filter_id_fresh (i : string) (l : list Task) :
  ~ In i (map id l) -> filter (fun t => negb (id t =? i)) l = l.
Proof.
  intros H. apply filter_all. intros x Hx. apply eqb_neq_true.
  intros E. apply H. rewrite <- E. now apply in_map.
Qed.

(** ** Facts about [deleteCategory] *)

Lemma deleteCategory_archivedTasks (cat : string) (s : State) :
  archivedTasks (deleteCategory cat s) = archivedTasks s.
Proof.
  unfold deleteCategory. destruct (activeCategory s =? cat); reflexivity.
Qed.

Lemma deleteCategory_categories (cat : string) (s : State) :
  categories (deleteCategory cat s)
  = filter (fun c => negb (c =? cat)) (categories s).
Proof.
  unfold deleteCategory. destruct (activeCategory s =? cat); reflexivity.
Qed.

Lemma deleteCategory_tasks (cat : string) (s : State) :
  tasks (deleteCategory cat s)
  = map (fun t =>
           if category t =? cat
           then withCategory (fallbackCategory cat (categories s)) t
           else t) (tasks s).
Proof.
  unfold deleteCategory. destruct (activeCategory s =? cat); reflexivity.
Qed.

Lemma find_firstOther (cat : string) (cats : list string) :
  find (fun c => negb (c =? cat)) cats = firstOther cat cats.
Proof.
  induction cats as [|c rest IH]; simpl; [reflexivity|].
  name_cases c cat; simpl; [exact IH | reflexivity].
Qed.

Lemma fallbackCategory_firstNamed (cat : string) (cats : list string) :
  fallbackCategory cat cats = firstNamedOtherOrGeneral cat cats.
Proof.
  unfold fallbackCategory, firstNamedOtherOrGeneral, orElse, truthy.
  rewrite find_firstOther. destruct (firstOther cat cats) as [c|]; trivial.
  name_cases c ""; reflexivity.
Qed.

Lemma firstOther_in (cat c : string) (cats : list string) :
  firstOther cat cats = Some c -> In c cats /\ c <> cat.
Proof.
  induction cats as [|a rest IH]; simpl; [discriminate|].
  destruct (string_dec a cat) as [E | N].
  - intros H. destruct (IH H). auto.
  - intros [= <-]. auto.
Qed.

Lemma firstOther_none (cat : string) (cats : list string) :
  firstOther cat cats = None <-> (forall c, In c cats -> c = cat).
Proof.
  induction cats as [|a rest IH]; simpl.
  - split; [intros _ c [] | reflexivity].
  - destruct (string_dec a cat) as [E | N].
    + rewrite IH. split.
      * intros H c [<- | Hc]; auto.
      * intros H c Hc. apply H. now right.
    + split; [discriminate|]. intros H. elim N. apply H. now left.
Qed.

Lemma firstOther_exists (cat : string) (cats : list string) :
  (exists c, In c cats /\ c <> cat) ->
  exists c, firstOther cat cats = Some c.
Proof.
  intros [c [Hin Hne]].
  destruct (firstOther cat cats) as [c0|] eqn:E; [now exists c0|].
  elim Hne. now apply (proj1 (firstOther_none cat cats) E).
Qed.

Lemma filter_ne_remove (cat : string) (l : list string) :
  filter (fun c => negb (c =? cat)) l = remove string_dec cat l.
Proof.
  induction l as [|a l IH]; simpl; [reflexivity|].
  destruct (string_dec cat a) as [E | N].
  - subst a. rewrite String.eqb_refl. exact IH.
  - assert (E : (a =? cat) = false) by (apply String.eqb_neq; congruence).
    rewrite E. simpl. now rewrite IH.
Qed.

(** The first other category is the head of what is left once [cat] is
    removed: the fallback read before the removal is the one that would be
    read after it. *)
Lemma firstOther_after_removal (cat : string) (cats : list string) :
  firstOther cat cats = hd_error (filter (fun c => negb (c =? cat)) cats).
Proof.
  induction cats as [|a rest IH]; simpl; [reflexivity|].
  name_cases a cat; simpl; [exact IH | reflexivity].
Qed.

Lemma reassign_code (cat fallback : string) (t : Task) :
  (if category t =? cat then withCategory fallback t else t)
  = reassign cat fallback t.
Proof.
  unfold reassign. name_cases (category t) cat; reflexivity.
Qed.

(** ** The example sessions are reachable *)

Lemma addCategory_reachable (c : string) (s : State) :
  reachable s -> reachable (addCategory c s).
Proof.
  intros H. unfold addCategory.
  apply reach_handleSave, reach_setTextInput, reach_openAddCategorySheet, H.
Qed.

Lemma firstTaskSession_reachable : reachable firstTaskSession.
Proof.
  unfold firstTaskSession.
  apply reach_handleSave, reach_setTextInput, reach_openAddSheet, reach_init.
Qed.

Lemma workOnly_reachable : reachable workOnly.
Proof.
  unfold workOnly.
  apply reach_handleSave, reach_setTextInput, reach_setSelectedCategory.
  - apply reach_openAddSheet, addCategory_reachable, reach_init.
  - vm_compute. auto.
Qed.

Lemma twoSpaces_reachable : reachable twoSpaces.
Proof.
  unfold twoSpaces. do 2 apply addCategory_reachable. apply reach_init.
Qed.

Lemma workArchived_reachable : reachable workArchived.
Proof.
  unfold workArchived. apply reach_viewArchive, reach_deleteCategory.
  - apply twoSpaces_reachable.
  - vm_compute. auto.
Qed.

Lemma oneTask_reachable : reachable oneTask.
Proof.
  unfold oneTask.
  apply reach_handleSave, reach_setTextInput, reach_setSelectedCategory.
  - apply reach_openAddSheet, twoSpaces_reachable.
  - vm_compute. auto.
Qed.

Lemma twoTasks_reachable : reachable twoTasks.
Proof.
  unfold twoTasks.
  apply reach_handleSave, reach_setTextInput, reach_setSelectedCategory.
  - apply reach_openAddSheet, oneTask_reachable.
  - vm_compute. auto.
Qed.

Lemma taskArchived_reachable : reachable taskArchived.
Proof.
  unfold taskArchived.
  apply reach_viewArchive, (reach_deleteTask oneTask shipV1).
  - apply oneTask_reachable.
  - split; [discriminate | vm_compute; auto].
Qed.

Lemma restoredTwice_reachable : reachable restoredTwice.
Proof.
  unfold restoredTwice.
  apply reach_undoDelete; [|reflexivity].
  apply reach_deleteCategory; [|vm_compute; auto].
  apply (reach_toggleComplete _ shipV1);
    [|split; [discriminate | vm_compute; auto]].
  apply reach_viewAll, reach_restoreTask.
  - apply taskArchived_reachable.
  - reflexivity.
  - vm_compute. auto.
Qed.

Lemma backupImported_reachable : reachable backupImported.
Proof.
  unfold backupImported.
  apply reach_import, (reach_deleteTask oneTask shipV1).
  - apply oneTask_reachable.
  - split; [discriminate | vm_compute; auto].
Qed.

Lemma emptyNameImported_reachable : reachable emptyNameImported.
Proof.
  apply reach_import, reach_init.
Qed.

(** What the example sessions hold. *)
Lemma workOnly_holds :
  tasks workOnly = [shipV1] /\ categories workOnly = ["Work"].
Proof.
  split; vm_compute; reflexivity.
Qed.

Lemma twoTasks_holds :
  tasks twoTasks = [buyMilk; shipV1]
  /\ categories twoTasks = ["Work"; "Home"]
  /\ archivedTasks twoTasks = [].
Proof.
  repeat split; vm_compute; reflexivity.
Qed.

Lemma backupImported_holds :
  tasks backupImported = [shipV1]
  /\ archivedTasks backupImported = [shipV1]
  /\ archivedTasks (undoDelete (deleteTask (id shipV1) backupImported)) = [].
Proof.
  repeat split; vm_compute; reflexivity.
Qed.

Lemma restoredTwice_holds :
  tasks restoredTwice = [shipV1; shipV1Done]
  /\ tasks (undoDelete (deleteTask (id shipV1Done) restoredTwice))
     = [shipV1].
Proof.
  split; vm_compute; reflexivity.
Qed.

(** ** Tasks and active categories (C1) *)

(** C1, as stated, fails.  A fresh user who saves a first objective gets a
    task in "Personal" while no category is active ([firstTaskSession]).
    And in [workOnly], where the one task is in the one active category
    "Work", deleting "Work" moves the task to "General", which is not an
    active category. *)
Lemma tasksLinked_not_invariant :
  (reachable firstTaskSession /\ ~ tasksLinked firstTaskSession)
  /\ (reachable workOnly /\ tasksLinked workOnly
      /\ reachable (deleteCategory "Work" workOnly)
      /\ map category (tasks (deleteCategory "Work" workOnly)) = ["General"]
      /\ categories (deleteCategory "Work" workOnly) = []
      /\ ~ tasksLinked (deleteCategory "Work" workOnly)).
Proof.
  split.
  - split; [apply firstTaskSession_reachable|].
    intros H. apply (H (newTask 1 1 (setTextInput "Ship v1"
                                       (openAddSheet initialState)))).
    vm_compute. auto.
  - split; [apply workOnly_reachable|].
    split.
    { destruct workOnly_holds as [Et Ec]. unfold tasksLinked.
      rewrite Et, Ec. intros t [<- | []]. simpl. auto. }
    split.
    { apply reach_deleteCategory; [apply workOnly_reachable|].
      vm_compute. auto. }
    split; [reflexivity|]. split; [reflexivity|].
    intros H. apply (H (withCategory "General" shipV1)).
    vm_compute. auto.
Qed.

Lemma deleteCategory_linked (s : State) (cat : string) :
  tasksLinked s ->
  (exists c, In c (categories s) /\ c <> cat) ->
  ~ In "" (categories s) ->
  tasksLinked (deleteCategory cat s).
Proof.
  intros Hl Hother Hnamed t' Ht'.
  rewrite deleteCategory_categories, in_filter_ne.
  rewrite deleteCategory_tasks, fallbackCategory_firstNamed in Ht'.
  apply in_map_iff in Ht'. destruct Ht' as [t [<- Ht]].
  destruct (category t =? cat) eqn:E.
  - simpl. unfold firstNamedOtherOrGeneral.
    destruct (firstOther_exists cat (categories s) Hother) as [c Ec].
    rewrite Ec. apply firstOther_in in Ec.
    destruct (string_dec c "") as [-> | _]; tauto.
  - apply String.eqb_neq in E. split; [now apply Hl | exact E].
Qed.

Lemma handleSave_linked (s : State) (nowId nowCreated : Z) :
  tasksLinked s ->
  In (selectedCategory s) (categories s) ->
  tasksLinked (handleSave nowId nowCreated s).
Proof.
  intros Hl Hsel. unfold handleSave.
  destruct (negb (truthy (trim (textInput s)))); [exact Hl|].
  destruct (isMode (sheetMode s) ADD_CATEGORY).
  - destruct (negb (includesStr (categories s) (trim (textInput s))));
      [|exact Hl].
    intros t Ht. simpl in *. apply in_or_app. left. now apply Hl.
  - assert (Hnew : tasksLinked
                     (setTasks (fun prev => newTask nowId nowCreated s :: prev)
                        s)).
    { intros t [<- | Ht]; simpl; [exact Hsel | now apply Hl]. }
    destruct (isMode (sheetMode s) EDIT_TASK); [|exact Hnew].
    destruct (editingId s) as [i|]; [|exact Hnew].
    intros t' Ht'. simpl in Ht'. apply in_map_iff in Ht'.
    destruct Ht' as [t [<- Ht]].
    destruct (id t =? i); simpl; [exact Hsel | now apply Hl].
Qed.

Lemma importTasks_linked (s : State) (data : Backup) :
  tasksLinked (stateOf (importTasks data s)) <-> backupLinked data s.
Proof.
  destruct data as [| | |[| |ts] [| |cs]]; reflexivity.
Qed.

(** C1 (amended): the link between active tasks and active categories is
    kept by an operation under the condition the operation itself does not
    check.  From a state where every active task names an active category:
    deleting a category keeps the link when another category is active and
    no active category has the empty name; saving a new or edited task
    keeps it when the category selected in the sheet is active; restoring
    an archived task keeps it when the task's category is active; restoring
    a category always keeps it; an import keeps it exactly when the
    collections it leads to are linked. *)
Theorem tasksLinked_preserved (s : State) :
  tasksLinked s ->
  (forall cat,
     (exists c, In c (categories s) /\ c <> cat) ->
     ~ In "" (categories s) ->
     tasksLinked (deleteCategory cat s))
  /\ (forall nowId nowCreated,
        In (selectedCategory s) (categories s) ->
        tasksLinked (handleSave nowId nowCreated s))
  /\ (forall t,
        In (category t) (categories s) ->
        tasksLinked (restoreTaskFromArchive t s))
  /\ (forall c, tasksLinked (restoreCategoryFromArchive c s))
  /\ (forall data,
        tasksLinked (stateOf (importTasks data s)) <-> backupLinked data s).
Proof.
  intros Hl. split; [|split; [|split; [|split]]].
  - intros cat. now apply deleteCategory_linked.
  - intros nowId nowCreated. now apply handleSave_linked.
  - intros t Ht u [<- | Hu]; simpl; [exact Ht | now apply Hl].
  - intros c t Ht. simpl in *. apply in_or_app. left. now apply Hl.
  - intros data. apply importTasks_linked.
Qed.

(** In [twoTasks] the tasks are in "Home" and "Work", both active; once
    "Work" is deleted every task is in "Home". *)
Lemma tasksLinked_preserved_witness :
  tasksLinked twoTasks /\ tasksLinked (deleteCategory "Work" twoTasks).
Proof.
  destruct twoTasks_holds as [Et [Ec _]].
  assert (Hl : tasksLinked twoTasks).
  { unfold tasksLinked. rewrite Et, Ec.
    intros t [<- | [<- | []]]; simpl; auto. }
  assert (Hother : exists c, In c (categories twoTasks) /\ c <> "Work").
  { exists "Home". rewrite Ec. split; [simpl; auto | discriminate]. }
  assert (Hnamed : ~ In "" (categories twoTasks)).
  { rewrite Ec. intros [E | [E | []]]; discriminate E. }
  destruct (tasksLinked_preserved twoTasks Hl) as [Hdel _].
  split; [exact Hl | exact (Hdel "Work" Hother Hnamed)].
Defined.

(** ** The cascade of a category deletion (C2) *)

(** C2, as stated, fails when the first other active category has the empty
    name: [emptyNameImported] has the active categories ["Work"; ""] and the
    task [shipV1] in "Work"; the first active category other than "Work" is
    the empty name, yet deleting "Work" moves the task to "General". *)
Lemma deleteCategory_skips_empty_name :
  reachable emptyNameImported
  /\ In "Work" (categories emptyNameImported)
  /\ firstOtherOrGeneral "Work" (categories emptyNameImported) = ""
  /\ map category (tasks (deleteCategory "Work" emptyNameImported))
     = ["General"]
  /\ tasks (deleteCategory "Work" emptyNameImported)
     <> map (reassign "Work"
               (firstOtherOrGeneral "Work" (categories emptyNameImported)))
            (tasks emptyNameImported).
Proof.
  split; [apply emptyNameImported_reachable|].
  split; [vm_compute; auto|].
  split; [reflexivity|].
  split; [reflexivity|].
  vm_compute. discriminate.
Qed.

(** C2 (amended): deleting [cat] moves every active task of category [cat]
    to the fallback and leaves the other tasks as they are; the fallback is
    read from the active categories as they are before the deletion: the
    first one other than [cat] if there is one and its name is not empty,
    "General" otherwise; [cat] is removed from the active categories, whose
    order is kept, and put at the front of the archived ones; the category
    filter goes back to "All"
    if it was [cat] and is kept otherwise.  When no active category has the
    empty name the fallback is the one the specification describes. *)
Theorem deleteCategory_cascade (s : State) (cat : string) :
  tasks (deleteCategory cat s)
  = map (reassign cat (firstNamedOtherOrGeneral cat (categories s))) (tasks s)
  /\ categories (deleteCategory cat s) = remove string_dec cat (categories s)
  /\ archivedCategories (deleteCategory cat s) = cat :: archivedCategories s
  /\ activeCategory (deleteCategory cat s)
     = (if string_dec (activeCategory s) cat then "All" else activeCategory s)
  /\ (~ In "" (categories s) ->
      firstNamedOtherOrGeneral cat (categories s)
      = firstOtherOrGeneral cat (categories s)).
Proof.
  split; [|split; [|split; [|split]]].
  - rewrite deleteCategory_tasks, fallbackCategory_firstNamed.
    apply map_ext. intros t. apply reassign_code.
  - rewrite deleteCategory_categories. apply filter_ne_remove.
  - unfold deleteCategory. destruct (activeCategory s =? cat); reflexivity.
  - unfold deleteCategory. name_cases (activeCategory s) cat; reflexivity.
  - intros Hne. unfold firstNamedOtherOrGeneral, firstOtherOrGeneral.
    destruct (firstOther cat (categories s)) as [c|] eqn:Ec; trivial.
    destruct (string_dec c "") as [-> | N]; trivial.
    apply firstOther_in in Ec. tauto.
Qed.

Lemma deleteCategory_cascade_witness :
  firstNamedOtherOrGeneral "Work" (categories oneTask)
  = firstOtherOrGeneral "Work" (categories oneTask).
Proof.
  assert (H : ~ In "" (categories oneTask)).
  { vm_compute. intros [E | [E | []]]; discriminate E. }
  destruct (deleteCategory_cascade oneTask "Work") as [_ [_ [_ [_ E]]]].
  exact (E H).
Defined.

(** The scenario of the specification: with "Home" also active, deleting
    "Work" moves [shipV1] to "Home" and archives "Work". *)
Example deleteCategory_scenario :
  map category (tasks (deleteCategory "Work" oneTask)) = ["Home"]
  /\ categories (deleteCategory "Work" oneTask) = ["Home"]
  /\ archivedCategories (deleteCategory "Work" oneTask) = ["Work"].
Proof.
  repeat split.
Qed.

(** ** The pending undo entries (C3) *)

Lemma deleteCategory_lastDeleted (cat : string) (s : State) :
  lastDeletedCategory (deleteCategory cat s) = Some cat
  /\ lastDeletedTask (deleteCategory cat s) = lastDeletedTask s.
Proof.
  unfold deleteCategory. destruct (activeCategory s =? cat); split; reflexivity.
Qed.






(** ** Deleting a task and undoing it (C4) *)

Lemma find_by_unique_id (t : Task) (l : list Task) :
  NoDup (map id l) -> In t l -> find (fun u => id u =? id t) l = Some t.
Proof.
  induction l as [|a l IH]; simpl; intros Hnd Hin; [contradiction|].
  inversion Hnd as [|? ? Hfresh Hnd']; subst.
  destruct Hin as [-> | Hin].
  - now rewrite String.eqb_refl.
  - destruct (id a =? id t) eqn:E.
    + apply String.eqb_eq in E. elim Hfresh. rewrite E. now apply in_map.
    + now apply IH.
Qed.

Lemma front_of_unique_id (t : Task) (l : list Task) :
  NoDup (map id l) -> In t l ->
  Permutation (t :: filter (fun u => negb (id u =? id t)) l) l.
Proof.
  induction l as [|a l IH]; simpl; intros Hnd Hin; [contradiction|].
  inversion Hnd as [|? ? Hfresh Hnd']; subst.
  destruct Hin as [-> | Hin].
  - rewrite String.eqb_refl. simpl. now rewrite filter_id_fresh.
  - destruct (id a =? id t) eqn:E.
    + apply String.eqb_eq in E. elim Hfresh. rewrite E. now apply in_map.
    + simpl. rewrite perm_swap. apply perm_skip. now apply IH.
Qed.

(** C4, as stated, fails where an identifier is not that of one task
    only.  In the reachable state [restoredTwice] the active tasks are
    [shipV1] and [shipV1Done], both with identifier "task_7"; deleting
    "task_7" and pressing RESTORE brings back [shipV1] alone: [shipV1Done]
    is lost, and the active list is one task shorter.  In the reachable
    state [backupImported] the task [shipV1] is both active and archived;
    deleting it and pressing RESTORE empties the archived list. *)
Lemma deleteTask_undo_loses_task :
  (reachable restoredTwice
   /\ tasks restoredTwice = [shipV1; shipV1Done]
   /\ In shipV1Done (tasks restoredTwice)
   /\ tasks (undoDelete (deleteTask (id shipV1Done) restoredTwice))
      = [shipV1]
   /\ ~ In shipV1Done
          (tasks (undoDelete (deleteTask (id shipV1Done) restoredTwice)))
   /\ ~ Permutation
          (tasks (undoDelete (deleteTask (id shipV1Done) restoredTwice)))
          (tasks restoredTwice))
  /\ (reachable backupImported
      /\ In shipV1 (tasks backupImported)
      /\ archivedTasks backupImported = [shipV1]
      /\ archivedTasks (undoDelete (deleteTask (id shipV1) backupImported))
         = []).
Proof.
  split.
  - destruct restoredTwice_holds as [E1 E2]. rewrite E2, E1.
    split; [apply restoredTwice_reachable|].
    split; [reflexivity|].
    split; [simpl; auto|].
    split; [reflexivity|].
    split.
    + intros [E | []]. discriminate E.
    + intros H. apply Permutation_length in H. discriminate H.
  - destruct backupImported_holds as [E1 [E2 E3]]. rewrite E1, E2, E3.
    split; [apply backupImported_reachable|].
    split; [simpl; auto|]. split; reflexivity.
Qed.

(** C4 (amended): for a task [t] of the active list, when the identifiers
    of the active tasks are pairwise distinct and no archived task has the
    identifier of [t], deleting [t] and pressing RESTORE puts [t], with all
    its fields, at the front of the active list, the other tasks following
    in their order: the active list is a permutation of what it was, and
    the archived list is what it was. *)
Theorem deleteTask_undo_roundtrip (s : State) (t : Task) :
  In t (tasks s) ->
  NoDup (map id (tasks s)) ->
  ~ In (id t) (map id (archivedTasks s)) ->
  tasks (undoDelete (deleteTask (id t) s))
  = t :: filter (fun u => negb (id u =? id t)) (tasks s)
  /\ In t (tasks (undoDelete (deleteTask (id t) s)))
  /\ Permutation (tasks (undoDelete (deleteTask (id t) s))) (tasks s)
  /\ archivedTasks (undoDelete (deleteTask (id t) s)) = archivedTasks s
  /\ ~ In t (archivedTasks (undoDelete (deleteTask (id t) s)))
  /\ lastDeletedTask (undoDelete (deleteTask (id t) s)) = None
  /\ categories (undoDelete (deleteTask (id t) s)) = categories s
  /\ archivedCategories (undoDelete (deleteTask (id t) s))
     = archivedCategories s.
Proof.
  intros Hin Hnd Hfresh. unfold deleteTask.
  rewrite (find_by_unique_id t (tasks s) Hnd Hin). simpl.
  rewrite String.eqb_refl. simpl. rewrite (filter_id_fresh _ _ Hfresh).
  split; [reflexivity|]. split; [now left|].
  split; [now apply front_of_unique_id|].
  split; [reflexivity|]. split; [|repeat split].
  intros H. apply Hfresh. now apply in_map.
Qed.

(** In [twoTasks] the active list is [buyMilk; shipV1]; deleting [shipV1]
    and pressing RESTORE gives [shipV1; buyMilk]. *)
Lemma deleteTask_undo_roundtrip_witness :
  tasks twoTasks = [buyMilk; shipV1]
  /\ tasks (undoDelete (deleteTask (id shipV1) twoTasks)) = [shipV1; buyMilk]
  /\ Permutation (tasks (undoDelete (deleteTask (id shipV1) twoTasks)))
       (tasks twoTasks)
  /\ archivedTasks (undoDelete (deleteTask (id shipV1) twoTasks))
     = archivedTasks twoTasks.
Proof.
  destruct twoTasks_holds as [Et [_ Ea]].
  assert (Hin : In shipV1 (tasks twoTasks)).
  { rewrite Et. simpl. auto. }
  assert (Hnd : NoDup (map id (tasks twoTasks))).
  { rewrite Et. simpl. repeat constructor.
    - intros [E | []]. discriminate E.
    - intros []. }
  assert (Hfresh : ~ In (id shipV1) (map id (archivedTasks twoTasks))).
  { rewrite Ea. intros []. }
  destruct (deleteTask_undo_roundtrip twoTasks shipV1 Hin Hnd Hfresh)
    as [E1 [_ [E2 [E3 _]]]].
  split; [exact Et|]. split; [|split; [exact E2 | exact E3]].
  rewrite E1, Et. reflexivity.
Defined.

(** ** Restoring from the archive (C5) *)

(** C5, as stated, fails for categories: a restored category is not put at
    the front of the active list.  In the reachable state [workArchived]
    the active categories are ["Home"] and "Work" is archived; restoring
    "Work" gives ["Home"; "Work"]. *)
Lemma restoreCategory_not_prepended :
  reachable workArchived
  /\ In "Work" (archivedCategories workArchived)
  /\ categories (restoreCategoryFromArchive "Work" workArchived)
     = ["Home"; "Work"]
  /\ categories (restoreCategoryFromArchive "Work" workArchived)
     <> "Work" :: categories workArchived.
Proof.
  split; [apply workArchived_reachable|].
  split; [vm_compute; auto|].
  split; [reflexivity | vm_compute; discriminate].
Qed.

(** C5 (amended): restoring an archived task removes every archived entry
    with its identifier and puts the task at the front of the active list;
    restoring an archived category removes it from the archived names and
    puts it at the end of the active categories, and changes no task,
    active or archived: the tasks moved away when the category was deleted
    stay where they are. *)
Theorem restore_from_archive (s : State) :
  (forall t, In t (archivedTasks s) ->
     tasks (restoreTaskFromArchive t s) = t :: tasks s
     /\ ~ In t (archivedTasks (restoreTaskFromArchive t s))
     /\ (forall u, In u (archivedTasks (restoreTaskFromArchive t s)) <->
                   In u (archivedTasks s) /\ id u <> id t)
     /\ categories (restoreTaskFromArchive t s) = categories s)
  /\ (forall c, In c (archivedCategories s) ->
     categories (restoreCategoryFromArchive c s) = (categories s ++ [c])%list
     /\ ~ In c (archivedCategories (restoreCategoryFromArchive c s))
     /\ (forall x, In x (archivedCategories (restoreCategoryFromArchive c s))
                   <-> In x (archivedCategories s) /\ x <> c)
     /\ tasks (restoreCategoryFromArchive c s) = tasks s
     /\ archivedTasks (restoreCategoryFromArchive c s) = archivedTasks s).
Proof.
  split.
  - intros t _. simpl. split; [reflexivity|]. split; [|split].
    + rewrite in_filter_id. tauto.
    + intros u. apply in_filter_id.
    + reflexivity.
  - intros c _. simpl. split; [reflexivity|]. split; [|split].
    + rewrite in_filter_ne. tauto.
    + intros x. apply in_filter_ne.
    + split; reflexivity.
Qed.

Lemma restore_from_archive_witness :
  tasks (restoreTaskFromArchive shipV1 taskArchived)
  = shipV1 :: tasks taskArchived
  /\ categories (restoreCategoryFromArchive "Work" workArchived)
     = (categories workArchived ++ ["Work"])%list.
Proof.
  assert (Ht : In shipV1 (archivedTasks taskArchived))
    by (vm_compute; auto).
  assert (Hc : In "Work" (archivedCategories workArchived))
    by (vm_compute; auto).
  destruct (restore_from_archive taskArchived) as [Htask _].
  destruct (restore_from_archive workArchived) as [_ Hcat].
  destruct (Htask shipV1 Ht) as [E1 _].
  destruct (Hcat "Work" Hc) as [E2 _].
  split; [exact E1 | exact E2].
Defined.

(** ** Purging from the archive (C6) *)

(** What a purge changes: the archived entries with that identifier (or
    that name) go, and nothing else of the repository changes; in
    particular the pending undo entries are the ones from before. *)
Lemma permanentlyDeleteTask_frame (i : string) (s : State) :
  (forall u, In u (archivedTasks (permanentlyDeleteTask i s)) <->
             In u (archivedTasks s) /\ id u <> i)
  /\ tasks (permanentlyDeleteTask i s) = tasks s
  /\ lastDeletedTask (permanentlyDeleteTask i s) = lastDeletedTask s
  /\ lastDeletedCategory (permanentlyDeleteTask i s) = lastDeletedCategory s.
Proof.
  split; [|repeat split]. intros u. apply in_filter_id.
Qed.

Lemma permanentlyDeleteCategory_frame (cat : string) (s : State) :
  (forall c, In c (archivedCategories (permanentlyDeleteCategory cat s)) <->
             In c (archivedCategories s) /\ c <> cat)
  /\ categories (permanentlyDeleteCategory cat s) = categories s
  /\ lastDeletedTask (permanentlyDeleteCategory cat s) = lastDeletedTask s
  /\ lastDeletedCategory (permanentlyDeleteCategory cat s)
     = lastDeletedCategory s.
Proof.
  split; [|repeat split]. intros c. apply in_filter_ne.
Qed.

(** C6 at its failing input.  [shipV1] is deleted and then purged from the
    archive page: it is in neither list, yet the entry its deletion left
    pending is still there, and RESTORE on the toast of the purge puts
    [shipV1] back into the active list.  The same holds for the category
    "Work". *)
Theorem purge_reversed_by_undo :
  (reachable (permanentlyDeleteTask "task_7" taskArchived)
   /\ In shipV1 (archivedTasks taskArchived)
   /\ tasks (permanentlyDeleteTask "task_7" taskArchived) = []
   /\ archivedTasks (permanentlyDeleteTask "task_7" taskArchived) = []
   /\ isToastActive (permanentlyDeleteTask "task_7" taskArchived) = true
   /\ lastDeletedTask (permanentlyDeleteTask "task_7" taskArchived)
      = Some shipV1
   /\ tasks (undoDelete (permanentlyDeleteTask "task_7" taskArchived))
      = [shipV1])
  /\ (reachable (permanentlyDeleteCategory "Work" workArchived)
      /\ In "Work" (archivedCategories workArchived)
      /\ categories (permanentlyDeleteCategory "Work" workArchived)
         = ["Home"]
      /\ archivedCategories (permanentlyDeleteCategory "Work" workArchived)
         = []
      /\ categories
           (undoDelete (permanentlyDeleteCategory "Work" workArchived))
         = ["Home"; "Work"]).
Proof.
  split.
  - split.
    { apply (reach_purgeTask taskArchived shipV1).
      - apply taskArchived_reachable.
      - reflexivity.
      - vm_compute. auto. }
    split; [vm_compute; auto|]. repeat split.
  - split.
    { apply reach_purgeCategory.
      - apply workArchived_reachable.
      - reflexivity.
      - vm_compute. auto. }
    split; [vm_compute; auto|]. repeat split.
Qed.

(** ** Backup import (C7) *)

(** A field that is present is not always taken: the document
    [{"tasks": null}] has the field [tasks], and the import, which reports
    a success, keeps the active task there was. *)
Lemma importTasks_keeps_on_falsy_field :
  hasField (@Falsy (list Task)) = true
  /\ ~ reportedMalformed (importTasks (JsonObject Falsy Missing) oneTask)
  /\ tasks oneTask = [shipV1]
  /\ tasks (stateOf (importTasks (JsonObject Falsy Missing) oneTask))
     = [shipV1].
Proof.
  split; [reflexivity|]. split; [intros []|].
  split; vm_compute; reflexivity.
Qed.

(** C7, for every backup document.  A text that does not parse, and the
    text [null], are reported as malformed; a number, a string, a boolean
    or an array are taken as a backup that changes nothing; in an object,
    the field [tasks] replaces the active tasks when it holds an array,
    nothing of the old collection being kept, and leaves them as they are
    when it is missing or holds a falsy value; likewise for [categories]
    and the active categories.  No document changes the archive. *)
Theorem importTasks_every_document (data : Backup) (s : State) :
  archivedTasks (stateOf (importTasks data s)) = archivedTasks s
  /\ archivedCategories (stateOf (importTasks data s)) = archivedCategories s
  /\ match data with
     | Unparseable | JsonNull =>
         reportedMalformed (importTasks data s)
         /\ tasks (stateOf (importTasks data s)) = tasks s
         /\ categories (stateOf (importTasks data s)) = categories s
     | JsonScalar =>
         ~ reportedMalformed (importTasks data s)
         /\ tasks (stateOf (importTasks data s)) = tasks s
         /\ categories (stateOf (importTasks data s)) = categories s
     | JsonObject ts cs =>
         ~ reportedMalformed (importTasks data s)
         /\ tasks (stateOf (importTasks data s))
            = match ts with
              | Present v => v
              | Missing | Falsy => tasks s
              end
         /\ categories (stateOf (importTasks data s))
            = match cs with
              | Present v => v
              | Missing | Falsy => categories s
              end
     end.
Proof.
  destruct data as [| | |ts cs].
  - repeat split.
  - repeat split.
  - repeat split. intros [].
  - destruct ts as [| |v], cs as [| |w]; repeat split; intros [].
Qed.

(** The scenario of the specification: a backup with [categories] only
    keeps the active tasks and makes ["Home"] the active categories. *)
Example importTasks_scenario :
  tasks (stateOf (importTasks (JsonObject Missing (Present ["Home"])) oneTask))
  = tasks oneTask
  /\ categories
       (stateOf (importTasks (JsonObject Missing (Present ["Home"])) oneTask))
     = ["Home"].
Proof.
  split; reflexivity.
Qed.

(** What [exportTasks] writes, [importTasks] reads back. *)
Lemma import_export (s s0 : State) :
  tasks (stateOf (importTasks (exportTasks s) s0)) = tasks s
  /\ categories (stateOf (importTasks (exportTasks s) s0)) = categories s.
Proof.
  split; reflexivity.
Qed.

(** ** Per-category statistics (C8) *)

Lemma catTasks_length (c : string) (ts : list Task) :
  List.length (catTasks c ts) = tasksIn c ts.
Proof.
  induction ts as [|t ts IH]; simpl; [reflexivity|].
  name_cases (category t) c; simpl; now rewrite IH.
Qed.

Lemma completedCount_completedIn (c : string) (ts : list Task) :
  completedCount c ts = completedIn c ts.
Proof.
  unfold completedCount.
  induction ts as [|t ts IH]; simpl; [reflexivity|].
  name_cases (category t) c; simpl; [|exact IH].
  destruct (completed t); simpl; now rewrite IH.
Qed.

Lemma completedIn_le (c : string) (ts : list Task) :
  completedIn c ts <= tasksIn c ts.
Proof.
  induction ts as [|t ts IH]; simpl; [lia|].
  destruct (string_dec (category t) c); [destruct (completed t)|]; lia.
Qed.

(** *** Rounding to the nearest double *)

Lemma roundHalfEven_near (y : Q) :
  (Qabs (inject_Z (roundHalfEven y) - y) <= 1 # 2)%Q.
Proof.
  unfold roundHalfEven. cbv zeta.
  pose proof (Qfloor_le y) as Hl. pose proof (Qlt_floor y) as Hu.
  rewrite inject_Z_plus in Hu.
  apply Qabs_Qle_condition.
  destruct (Qcompare_spec (y - inject_Z (Qfloor y)) (1 # 2)) as [E | E | E].
  - destruct (Z.even (Qfloor y)); [|rewrite inject_Z_plus];
      change (inject_Z 1) with 1%Q in *;
      set (F := inject_Z (Qfloor y)) in *; split; lra.
  - set (F := inject_Z (Qfloor y)) in *. split; lra.
  - rewrite inject_Z_plus. change (inject_Z 1) with 1%Q in *.
    set (F := inject_Z (Qfloor y)) in *. split; lra.
Qed.

Lemma roundHalfEven_le (y : Q) (k : Z) :
  (y <= inject_Z k)%Q -> (roundHalfEven y <= k)%Z.
Proof.
  intros H. unfold roundHalfEven. cbv zeta.
  assert (Hf : (Qfloor y <= k)%Z).
  { rewrite <- (Qfloor_Z k). now apply Qfloor_resp_le. }
  assert (Hs : (0 < y - inject_Z (Qfloor y))%Q -> (Qfloor y < k)%Z).
  { intros P. rewrite Zlt_Qlt.
    set (F := inject_Z (Qfloor y)) in *. set (K := inject_Z k) in *. lra. }
  destruct (Qcompare_spec (y - inject_Z (Qfloor y)) (1 # 2)) as [C | C | C].
  - destruct (Z.even (Qfloor y)); [lia|].
    assert (Qfloor y < k)%Z; [apply Hs; rewrite C; reflexivity | lia].
  - lia.
  - assert (Qfloor y < k)%Z; [|lia].
    apply Hs. set (F := inject_Z (Qfloor y)) in *. lra.
Qed.

Lemma roundHalfEven_nonneg (y : Q) :
  (0 <= y)%Q -> (0 <= roundHalfEven y)%Z.
Proof.
  intros H. unfold roundHalfEven. cbv zeta.
  assert (Hf : (0 <= Qfloor y)%Z).
  { rewrite <- (Qfloor_Z 0). now apply Qfloor_resp_le. }
  destruct (_ ?= _)%Q; [destruct (Z.even _)| |]; lia.
Qed.

Lemma two_power (k : Z) : (0 <= k)%Z -> (inject_Z (2 ^ k) == 2 ^ k)%Q.
Proof.
  intros H. now rewrite Zpower_Qpower.
Qed.

Lemma two_power_pos (k : Z) : (0 < 2 ^ k)%Q.
Proof.
  apply Qpower_0_lt. reflexivity.
Qed.

Lemma two_power_plus (a b : Z) : (2 ^ (a + b) == 2 ^ a * 2 ^ b)%Q.
Proof.
  apply Qpower_plus. discriminate.
Qed.

(** [binade] is the exponent it is said to be. *)
Lemma binade_spec (x : Q) :
  (0 < x)%Q -> (2 ^ binade x <= x)%Q /\ (x < 2 ^ (binade x + 1))%Q.
Proof.
  intros Hx. unfold binade.
  destruct x as [n d]. cbn [Qnum Qden].
  assert (Hn : (0 < n)%Z).
  { unfold Qlt in Hx. simpl in Hx. lia. }
  destruct (Z.log2_spec n Hn) as [Hn1 Hn2].
  destruct (Z.log2_spec (Z.pos d) (Pos2Z.is_pos d)) as [Hd1 Hd2].
  set (a := Z.log2 n) in *. set (b := Z.log2 (Z.pos d)) in *.
  assert (Ha : (0 <= a)%Z) by apply Z.log2_nonneg.
  assert (Hb : (0 <= b)%Z) by apply Z.log2_nonneg.
  assert (Ex : ((n # d) * inject_Z (Z.pos d) == inject_Z n)%Q).
  { rewrite (Qmake_Qdiv n d). field. discriminate. }
  rewrite Zle_Qle in Hn1, Hd1. rewrite Zlt_Qlt in Hn2, Hd2.
  rewrite <- Z.add_1_r in Hn2, Hd2.
  rewrite two_power in Hn1, Hn2, Hd1, Hd2 by lia.
  set (N := inject_Z n) in *. set (D := inject_Z (Z.pos d)) in *.
  set (x := (n # d)%Q) in *.
  pose proof (two_power_pos b) as Pb.
  pose proof (two_power_pos (a - b)) as Pe.
  pose proof (two_power_pos (a - b - 1)) as Pe1.
  assert (E1 : (2 ^ (a + 1) == 2 ^ (a - b + 1) * 2 ^ b)%Q).
  { rewrite <- two_power_plus.
    now replace (a - b + 1 + b)%Z with (a + 1)%Z by lia. }
  assert (E2 : (2 ^ a == 2 ^ (a - b - 1) * 2 ^ (b + 1))%Q).
  { rewrite <- two_power_plus.
    now replace (a - b - 1 + (b + 1))%Z with a by lia. }
  destruct (Qle_bool (2 ^ (a - b)) x) eqn:T.
  - apply Qle_bool_iff in T. split; [exact T|].
    apply Qnot_le_lt. intros C.
    assert (C' : (2 ^ (a - b + 1) * 2 ^ b <= x * D)%Q).
    { apply Qle_trans with (x * 2 ^ b)%Q.
      - apply Qmult_le_compat_r; [exact C | lra].
      - rewrite !(Qmult_comm x). apply Qmult_le_compat_r; lra. }
    lra.
  - assert (T' : (x < 2 ^ (a - b))%Q).
    { apply Qnot_le_lt. intros C. apply Qle_bool_iff in C. congruence. }
    replace (a - b - 1 + 1)%Z with (a - b)%Z by lia.
    split; [|exact T'].
    apply Qnot_lt_le. intros C.
    assert (C' : (x * D < 2 ^ (a - b - 1) * 2 ^ (b + 1))%Q).
    { apply Qle_lt_trans with (x * 2 ^ (b + 1))%Q.
      - rewrite !(Qmult_comm x). apply Qmult_le_compat_r; lra.
      - apply Qmult_lt_compat_r; [apply two_power_pos | exact C]. }
    lra.
Qed.

Lemma scale_back (x : Q) (e : Z) :
  (x * 2 ^ (52 - e) * 2 ^ (e - 52) == x)%Q.
Proof.
  rewrite <- Qmult_assoc, <- two_power_plus.
  replace (52 - e + (e - 52))%Z with 0%Z by lia.
  change (2 ^ 0)%Q with 1%Q. ring.
Qed.

Lemma roundPositive_nonneg (x : Q) : (0 < x)%Q -> (0 <= roundPositive x)%Q.
Proof.
  intros Hx. unfold roundPositive. apply Qmult_le_0_compat.
  - change 0%Q with (inject_Z 0). rewrite <- Zle_Qle.
    apply roundHalfEven_nonneg. apply Qmult_le_0_compat; [lra|].
    apply Qlt_le_weak, two_power_pos.
  - apply Qlt_le_weak, two_power_pos.
Qed.

(** Rounding does not go past a whole number below 2^53, which is a
    double. *)
Lemma roundPositive_le (x : Q) (b : Z) :
  (0 < x)%Q -> (x <= inject_Z b)%Q -> (b < 2 ^ 53)%Z ->
  (roundPositive x <= inject_Z b)%Q.
Proof.
  intros Hx Hb Hlt. unfold roundPositive.
  destruct (binade_spec x Hx) as [He _]. set (e := binade x) in *.
  assert (Hb' : (inject_Z b < 2 ^ 53)%Q).
  { rewrite <- two_power by lia. now rewrite <- Zlt_Qlt. }
  assert (Hlt' : (e < 53)%Z).
  { apply (Qpower_lt_compat_l_inv 2); [|reflexivity].
    set (B := inject_Z b) in *. lra. }
  set (y := (x * 2 ^ (52 - e))%Q).
  assert (Hy : (y <= inject_Z (b * 2 ^ (52 - e)))%Q).
  { rewrite inject_Z_mult, two_power by lia. unfold y.
    apply Qmult_le_compat_r; [exact Hb|].
    apply Qlt_le_weak, two_power_pos. }
  apply roundHalfEven_le in Hy. rewrite Zle_Qle in Hy.
  apply Qle_trans with (inject_Z (b * 2 ^ (52 - e)) * 2 ^ (e - 52))%Q.
  - apply Qmult_le_compat_r; [exact Hy|].
    apply Qlt_le_weak, two_power_pos.
  - rewrite inject_Z_mult, two_power by lia. rewrite scale_back.
    apply Qle_refl.
Qed.

(** The relative error of a rounding is 2^-53 at most. *)
Lemma roundPositive_error (x : Q) :
  (0 < x)%Q ->
  (Qabs (roundPositive x - x) <= x * (1 # 9007199254740992))%Q.
Proof.
  intros Hx. unfold roundPositive.
  destruct (binade_spec x Hx) as [He _]. set (e := binade x) in *.
  set (y := (x * 2 ^ (52 - e))%Q).
  pose proof (roundHalfEven_near y) as Hn.
  set (m := inject_Z (roundHalfEven y)) in *.
  assert (Ex : (m * 2 ^ (e - 52) - x == (m - y) * 2 ^ (e - 52))%Q).
  { unfold y. rewrite <- (scale_back x e) at 1. ring. }
  rewrite Ex, Qabs_Qmult.
  rewrite (Qabs_pos (2 ^ (e - 52))) by apply Qlt_le_weak, two_power_pos.
  assert (Ep : (2 ^ (e - 52) == 2 ^ e * (1 # 4503599627370496))%Q).
  { unfold Z.sub. rewrite two_power_plus. reflexivity. }
  rewrite Ep.
  pose proof (two_power_pos e) as Pe.
  set (P := (2 ^ e)%Q) in *. set (A := Qabs (m - y)) in *.
  apply Qle_trans with ((1 # 2) * (P * (1 # 4503599627370496)))%Q.
  - apply Qmult_le_compat_r; [exact Hn | lra].
  - lra.
Qed.

Lemma round64_comp (x y : Q) : (x == y)%Q -> round64 x = round64 y.
Proof.
  intros E. unfold round64. now rewrite (Qred_complete x y E).
Qed.

Lemma round64_zero (x : Q) : (x == 0)%Q -> round64 x = 0%Q.
Proof.
  intros E. now rewrite (round64_comp x 0 E).
Qed.

Lemma round64_positive (x : Q) :
  (0 < x)%Q -> round64 x = roundPositive (Qred x).
Proof.
  intros Hx. unfold round64. cbv zeta.
  rewrite <- (Qred_correct x) in Hx.
  destruct (Qcompare_spec 0 (Qred x)) as [C | C | C];
    [lra | reflexivity | lra].
Qed.

Lemma round64_nonneg (x : Q) : (0 <= x)%Q -> (0 <= round64 x)%Q.
Proof.
  intros Hx. destruct (Qlt_le_dec 0 x) as [P | P].
  - rewrite (round64_positive x P). apply roundPositive_nonneg.
    now rewrite Qred_correct.
  - rewrite round64_zero; [apply Qle_refl | lra].
Qed.

Lemma round64_le (x : Q) (b : Z) :
  (0 <= x)%Q -> (x <= inject_Z b)%Q -> (b < 2 ^ 53)%Z ->
  (round64 x <= inject_Z b)%Q.
Proof.
  intros Hx Hb Hlt. destruct (Qlt_le_dec 0 x) as [P | P].
  - rewrite (round64_positive x P). apply roundPositive_le; trivial;
      now rewrite Qred_correct.
  - rewrite round64_zero; [|lra]. set (B := inject_Z b) in *. lra.
Qed.

Lemma round64_error (x : Q) :
  (0 <= x)%Q -> (Qabs (round64 x - x) <= x * (1 # 9007199254740992))%Q.
Proof.
  intros Hx. destruct (Qlt_le_dec 0 x) as [P | P].
  - rewrite (round64_positive x P).
    rewrite <- (Qred_correct x) at 2 3. apply roundPositive_error.
    now rewrite Qred_correct.
  - rewrite round64_zero; [|lra].
    assert (E : (x == 0)%Q) by lra. rewrite E. discriminate.
Qed.

(** The model of the numbers gives what the doubles of the kernel give,
    for every number of completed tasks out of up to 64 tasks and for some
    larger counts. *)
Example percentage_agrees_with_binary64 :
  forallb (fun p => agreesWithBinary64 (fst p) (snd p))
    (countPairs 64 ++ largeCounts)%list
  = true.
Proof.
  vm_compute. reflexivity.
Qed.

(** *** The statistics *)

(** The percentage of [c] out of [n], for [c <= n] and [n] positive: it is
    between 0 and 100, within a relative error of 2^-51 of [100 * c / n],
    and 0 or 100 when [c] is 0 or [n]. *)
Lemma percentage_bounds (c n : nat) :
  c <= n -> 0 < n ->
  (0 <= percentage c n)%Q /\ (percentage c n <= 100)%Q
  /\ (Qabs (percentage c n
            - 100 * inject_Z (Z.of_nat c) / inject_Z (Z.of_nat n))
      <= 100 * inject_Z (Z.of_nat c) / inject_Z (Z.of_nat n)
         * (1 # 2251799813685248))%Q
  /\ (c = 0 -> percentage c n = 0%Q)
  /\ (c = n -> (percentage c n == 100)%Q).
Proof.
  intros Hc Hn. unfold percentage, numMul, numDiv.
  assert (HN : (0 < inject_Z (Z.of_nat n))%Q).
  { change 0%Q with (inject_Z 0). rewrite <- Zlt_Qlt. lia. }
  assert (HC : (0 <= inject_Z (Z.of_nat c))%Q).
  { change 0%Q with (inject_Z 0). rewrite <- Zle_Qle. lia. }
  assert (HCN : (inject_Z (Z.of_nat c) <= inject_Z (Z.of_nat n))%Q).
  { rewrite <- Zle_Qle. lia. }
  set (C := inject_Z (Z.of_nat c)) in *.
  set (N := inject_Z (Z.of_nat n)) in *.
  assert (Hq0 : (0 <= C / N)%Q).
  { apply Qle_shift_div_l; [exact HN | lra]. }
  assert (Hq1 : (C / N <= 1)%Q).
  { apply Qle_shift_div_r; [exact HN | lra]. }
  set (q := (C / N)%Q) in *.
  pose proof (round64_nonneg q Hq0) as A0.
  pose proof (round64_le q 1 Hq0 Hq1 eq_refl) as A1.
  pose proof (round64_error q Hq0) as A2.
  change (inject_Z 1) with 1%Q in A1.
  set (q1 := round64 q) in *.
  assert (B0 : (0 <= q1 * 100)%Q) by lra.
  assert (B1 : (q1 * 100 <= inject_Z 100)%Q).
  { change (inject_Z 100) with 100%Q. lra. }
  pose proof (round64_nonneg _ B0) as P0.
  pose proof (round64_le _ 100 B0 B1 eq_refl) as P1.
  pose proof (round64_error _ B0) as P2.
  change (inject_Z 100) with 100%Q in P1.
  set (p := round64 (q1 * 100)) in *.
  assert (Eq : (100 * C / N == 100 * q)%Q).
  { unfold q. field. lra. }
  split; [exact P0|]. split; [exact P1|]. split; [|split].
  - rewrite Eq. apply Qabs_Qle_condition.
    apply Qabs_Qle_condition in A2, P2. lra.
  - intros E. unfold p, q1.
    assert (E1 : (q == 0)%Q).
    { unfold q, C. rewrite E. field. lra. }
    rewrite (round64_comp _ _ E1). reflexivity.
  - intros E. unfold p, q1.
    assert (E1 : (q == 1)%Q).
    { unfold q, C, N. rewrite E. field. fold N. lra. }
    rewrite (round64_comp _ _ E1).
    assert (E2 : (round64 1 * 100 == 100)%Q) by (vm_compute; reflexivity).
    rewrite (round64_comp _ _ E2). vm_compute. reflexivity.
Qed.

Lemma elevenOfTwenty_holds :
  categories elevenOfTwenty = ["Work"]
  /\ tasksIn "Work" (tasks elevenOfTwenty) = 20
  /\ completedIn "Work" (tasks elevenOfTwenty) = 11.
Proof.
  repeat split; vm_compute; reflexivity.
Qed.

(** With eleven tasks completed out of twenty the progress is not
    100 * 11 / 20, which is 55, but the double above it,
    55.00000000000001: the quotient 11 / 20 is rounded before it is
    multiplied.  (100 * 11 / 20 computed on doubles is 55.) *)
Lemma progress_eleven_of_twenty :
  categoryStats elevenOfTwenty
  = [mkStat "Work" 20 (7740561859543041 # 140737488355328)]
  /\ tasksIn "Work" (tasks elevenOfTwenty) = 20
  /\ completedIn "Work" (tasks elevenOfTwenty) = 11
  /\ ~ (7740561859543041 # 140737488355328
        == 100 * inject_Z 11 / inject_Z 20)%Q
  /\ (numDiv (numMul 100 (inject_Z 11)) (inject_Z 20) == 55)%Q.
Proof.
  split; [vm_compute; reflexivity|].
  split; [vm_compute; reflexivity|].
  split; [vm_compute; reflexivity|].
  split; [discriminate | vm_compute; reflexivity].
Qed.

(** C8: every active category [c] has an entry in the statistics; an entry
    for [c] reports as count the number of active tasks whose category is
    [c], and a progress between 0 and 100 that is 0 for an empty category
    and otherwise the number [(completed / count) * 100], the quotient and
    the product being rounded to the nearest double: it is within a
    relative error of 2^-51 of 100 * completed / count, it is 0 when no
    task of [c] is completed and 100 when all are. *)
Theorem categoryStats_reports (s : State) (c : string) :
  In c (categories s) ->
  (exists st, In st (categoryStats s) /\ name st = c)
  /\ (forall st, In st (categoryStats s) -> name st = c ->
        count st = tasksIn c (tasks s)
        /\ (0 <= progress st)%Q /\ (progress st <= 100)%Q
        /\ (tasksIn c (tasks s) = 0 -> progress st = 0%Q)
        /\ (0 < tasksIn c (tasks s) ->
            progress st
            = percentage (completedIn c (tasks s)) (tasksIn c (tasks s))
            /\ (Qabs (progress st
                      - 100 * inject_Z (Z.of_nat (completedIn c (tasks s)))
                        / inject_Z (Z.of_nat (tasksIn c (tasks s))))
                <= 100 * inject_Z (Z.of_nat (completedIn c (tasks s)))
                   / inject_Z (Z.of_nat (tasksIn c (tasks s)))
                   * (1 # 2251799813685248))%Q
            /\ (completedIn c (tasks s) = 0 -> progress st = 0%Q)
            /\ (completedIn c (tasks s) = tasksIn c (tasks s) ->
                (progress st == 100)%Q))).
Proof.
  intros Hc. split.
  - exists (mkStat c (List.length (catTasks c (tasks s)))
              (progressOf c (tasks s))).
    split; [|reflexivity].
    unfold categoryStats. apply in_map_iff. now exists c.
  - intros st Hst Hname. unfold categoryStats in Hst.
    apply in_map_iff in Hst. destruct Hst as [c' [<- _]].
    simpl in Hname. subst c'. cbn [count progress]. unfold progressOf.
    rewrite catTasks_length, completedCount_completedIn.
    split; [reflexivity|].
    destruct (tasksIn c (tasks s)) as [|n] eqn:En.
    + cbn [Nat.eqb]. split; [discriminate|]. split; [discriminate|].
      split; [reflexivity|]. intros H. inversion H.
    + cbn [Nat.eqb].
      destruct (percentage_bounds (completedIn c (tasks s)) (S n))
        as [H0 [H1 [H2 [H3 H4]]]].
      * rewrite <- En. apply completedIn_le.
      * lia.
      * split; [exact H0|]. split; [exact H1|].
        split; [discriminate|]. intros _.
        split; [reflexivity|]. split; [exact H2|].
        split; [exact H3 | exact H4].
Qed.

(** In [elevenOfTwenty] the category "Work" has twenty tasks, eleven of
    them completed: an entry for "Work" reports count 20 and a progress
    between 0 and 100 that is [(11 / 20) * 100] on numbers. *)
Lemma categoryStats_reports_witness :
  exists st,
    In st (categoryStats elevenOfTwenty) /\ name st = "Work"
    /\ count st = 20
    /\ (0 <= progress st)%Q /\ (progress st <= 100)%Q
    /\ progress st = percentage 11 20.
Proof.
  destruct elevenOfTwenty_holds as [Ec [En Ed]].
  assert (Hc : In "Work" (categories elevenOfTwenty)).
  { rewrite Ec. now left. }
  destruct (categoryStats_reports elevenOfTwenty "Work" Hc)
    as [[st [Hin Hn]] Hall].
  destruct (Hall st Hin Hn) as [Hcount [H0 [H1 [_ Hp]]]].
  rewrite En in Hcount, Hp. rewrite Ed in Hp.
  destruct Hp as [Hp _]; [lia|].
  exists st. split; [exact Hin|]. split; [exact Hn|].
  split; [exact Hcount|]. split; [exact H0|]. split; [exact H1 | exact Hp].
Defined.

(** The scenario of the specification: one objective in "Work" gives count
    1 and progress 0; once it is ticked the progress is 100. *)
Example categoryStats_scenario :
  map (fun st => (name st, count st, Qred (progress st)))
      (categoryStats oneTask)
  = [("Work", 1, 0%Q); ("Home", 0, 0%Q)]
  /\ map (fun st => (name st, count st, Qred (progress st)))
         (categoryStats (toggleComplete "task_7" oneTask))
     = [("Work", 1, 100%Q); ("Home", 0, 0%Q)].
Proof.
  split; vm_compute; reflexivity.
Qed.

(** The names of the statistics are the active categories, in order. *)
Lemma categoryStats_names (s : State) :
  map name (categoryStats s) = categories s.
Proof.
  unfold categoryStats. rewrite map_map. simpl. apply map_id.
Qed.

(** ** Reordering (C9) *)

(** With no category filter and no search term the displayed list is the
    whole active list. *)
Lemma filteredTasks_unfiltered (s : State) :
  activeCategory s = "All" -> searchQuery s = "" -> filteredTasks s = tasks s.
Proof.
  intros Ha Hq. unfold filteredTasks. apply filter_all. intros t _.
  rewrite Ha, Hq. simpl. apply includes_empty.
Qed.

(** C9: the order submitted by a drag becomes the order of the active list
    only when the view is unfiltered (the category filter is "All" and the
    search term is empty), in which case the displayed list is the whole
    active list; under a category filter or a non-empty search term the
    handler leaves the state, hence the active list, unchanged. *)
Theorem onReorder_only_unfiltered (newOrder : list Task) (s : State) :
  (activeCategory s = "All" /\ searchQuery s = "" ->
   filteredTasks s = tasks s /\ tasks (onReorder newOrder s) = newOrder)
  /\ (activeCategory s <> "All" \/ searchQuery s <> "" ->
      onReorder newOrder s = s).
Proof.
  unfold onReorder, truthy. split.
  - intros [Ha Hq]. split; [now apply filteredTasks_unfiltered|].
    rewrite Ha, Hq. reflexivity.
  - intros [Ha | Hq].
    + apply String.eqb_neq in Ha. now rewrite Ha.
    + apply String.eqb_neq in Hq. rewrite Hq, andb_false_r. reflexivity.
Qed.

(** In [twoTasks], unfiltered, the swapped order is taken; once the view is
    filtered on "Work" the same drag changes nothing. *)
Lemma onReorder_only_unfiltered_witness :
  tasks (onReorder [shipV1; buyMilk] twoTasks) = [shipV1; buyMilk]
  /\ onReorder [shipV1] (setActiveCategory "Work" twoTasks)
     = setActiveCategory "Work" twoTasks.
Proof.
  destruct (onReorder_only_unfiltered [shipV1; buyMilk] twoTasks)
    as [Hyes _].
  destruct (onReorder_only_unfiltered [shipV1]
              (setActiveCategory "Work" twoTasks)) as [_ Hno].
  split.
  - apply Hyes. split; reflexivity.
  - apply Hno. left. discriminate.
Defined.

(** A drag accepted in the unfiltered view only permutes the active list. *)
Corollary onReorder_permutes (newOrder : list Task) (s : State) :
  Permutation newOrder (filteredTasks s) ->
  Permutation (tasks (onReorder newOrder s)) (tasks s).
Proof.
  intros Hp. unfold onReorder, truthy.
  destruct (activeCategory s =? "All") eqn:Ha; simpl; [|reflexivity].
  destruct (searchQuery s =? "") eqn:Hq; simpl; [|reflexivity].
  apply String.eqb_eq in Ha, Hq.
  now rewrite <- (filteredTasks_unfiltered s Ha Hq).
Qed.

(** ** Archived tasks keep their category (C10) *)

(** C10: deleting a category leaves the archived tasks as they are, so an
    archived task of the deleted category still carries its name; restoring
    that task afterwards puts into the active list a task whose category is
    not an active category. *)
Theorem deleteCategory_keeps_archived_links
  (s : State) (cat : string) (t : Task) :
  In t (archivedTasks s) -> category t = cat ->
  archivedTasks (deleteCategory cat s) = archivedTasks s
  /\ In t (archivedTasks (deleteCategory cat s))
  /\ In t (tasks (restoreTaskFromArchive t (deleteCategory cat s)))
  /\ ~ In (category t)
         (categories (restoreTaskFromArchive t (deleteCategory cat s))).
Proof.
  intros Hin Hcat. rewrite deleteCategory_archivedTasks.
  repeat split; trivial.
  - simpl. now left.
  - change (categories (restoreTaskFromArchive t (deleteCategory cat s)))
      with (categories (deleteCategory cat s)).
    rewrite deleteCategory_categories, in_filter_ne. tauto.
Qed.

(** With [shipV1] archived, deleting "Work" and restoring [shipV1] leaves
    an active task in "Work" while "Work" is not active. *)
Lemma deleteCategory_keeps_archived_links_witness :
  In shipV1
     (tasks (restoreTaskFromArchive shipV1
               (deleteCategory "Work" taskArchived)))
  /\ ~ In "Work"
         (categories (restoreTaskFromArchive shipV1
                        (deleteCategory "Work" taskArchived))).
Proof.
  assert (Hin : In shipV1 (archivedTasks taskArchived))
    by (vm_compute; auto).
  destruct (deleteCategory_keeps_archived_links taskArchived "Work" shipV1
              Hin eq_refl) as [_ [_ [H1 H2]]].
  split; [exact H1 | exact H2].
Defined.

(** * Further properties *)

(** ** Relative time and the due-date shortcuts *)



(** X2: for a day of the week (0 to 6) the "Weekend" shortcut is one to
    seven days ahead and falls on a Saturday; on a Saturday it is the next
    one, never the same day. *)
Theorem daysUntilWeekend_saturday (day : Z) :
  (0 <= day <= 6)%Z ->
  (1 <= daysUntilWeekend day <= 7)%Z
  /\ ((day + daysUntilWeekend day) mod 7 = 6)%Z.
Proof.
  intros H. unfold daysUntilWeekend.
  destruct (Z.eqb_spec day 6) as [-> | N]; [split; [lia | reflexivity]|].
  split; [lia|]. replace (day + (6 - day))%Z with 6%Z by lia. reflexivity.
Qed.

Lemma daysUntilWeekend_saturday_witness :
  (1 <= daysUntilWeekend 6 <= 7)%Z
  /\ ((6 + daysUntilWeekend 6) mod 7 = 6)%Z.
Proof.
  apply (daysUntilWeekend_saturday 6). lia.
Defined.

(** ** The password fingerprint *)

Lemma toInt32_range (z : Z) :
  (-2147483648 <= toInt32 z < 2147483648)%Z.
Proof.
  unfold toInt32.
  pose proof (Z.mod_pos_bound z 4294967296 eq_refl) as H.
  destruct (Z.ltb_spec (z mod 4294967296) 2147483648); lia.
Qed.

Lemma toInt32_wraps (z : Z) : exists k, (toInt32 z = z + 4294967296 * k)%Z.
Proof.
  unfold toInt32. pose proof (Z.div_mod z 4294967296) as H.
  destruct (Z.ltb_spec (z mod 4294967296) 2147483648).
  - exists (- (z / 4294967296))%Z. lia.
  - exists (- (z / 4294967296) - 1)%Z. lia.
Qed.

Lemma toInt32_shift (z k : Z) : toInt32 (z + 4294967296 * k) = toInt32 z.
Proof.
  unfold toInt32. now rewrite (Z.mul_comm 4294967296 k), Z_mod_plus_full.
Qed.

Lemma toInt32_eq_iff (x y : Z) :
  toInt32 x = toInt32 y <-> (x mod 4294967296 = y mod 4294967296)%Z.
Proof.
  unfold toInt32.
  pose proof (Z.mod_pos_bound x 4294967296 eq_refl).
  pose proof (Z.mod_pos_bound y 4294967296 eq_refl).
  destruct (Z.ltb_spec (x mod 4294967296) 2147483648);
    destruct (Z.ltb_spec (y mod 4294967296) 2147483648); lia.
Qed.

(** The shift, the subtraction and the mask of one round amount to a
    multiplication by 31, wrapped to 32 bits. *)
Lemma hashStep_times_31 (h : Z) (c : ascii) :
  hashStep h c = toInt32 (31 * h + Z.of_nat (nat_of_ascii c)).
Proof.
  unfold hashStep. rewrite Z.land_diag, Z.shiftl_mul_pow2 by lia.
  destruct (toInt32_wraps h) as [k Hk].
  destruct (toInt32_wraps (toInt32 h * 2 ^ 5)) as [k' Hk'].
  rewrite Hk', Hk.
  replace ((h + 4294967296 * k) * 2 ^ 5 + 4294967296 * k' - h
           + Z.of_nat (nat_of_ascii c))%Z
    with (31 * h + Z.of_nat (nat_of_ascii c)
          + 4294967296 * (32 * k + k'))%Z by lia.
  apply toInt32_shift.
Qed.

Lemma hashLoop_polyHash (x : Z) (str : string) :
  hashLoop (toInt32 x) str = toInt32 (polyHash x str).
Proof.
  revert x. induction str as [|c rest IH]; intros x; simpl; [reflexivity|].
  rewrite hashStep_times_31.
  destruct (toInt32_wraps x) as [k ->].
  replace (31 * (x + 4294967296 * k) + Z.of_nat (nat_of_ascii c))%Z
    with (31 * x + Z.of_nat (nat_of_ascii c) + 4294967296 * (31 * k))%Z
    by lia.
  rewrite toInt32_shift. apply IH.
Qed.

Lemma hashLoop_app (h : Z) (a b : string) :
  hashLoop h (a ++ b) = hashLoop (hashLoop h a) b.
Proof.
  revert h. induction a as [|c a IH]; intros h; simpl; [reflexivity|].
  apply IH.
Qed.

(** *** Printing in base 36 loses nothing *)

Lemma digitValue_digit36 (m : N) : (m < 36)%N -> digitValue (digit36 m) = m.
Proof.
  intros H. unfold digitValue, digit36.
  destruct (N.ltb_spec m 10).
  - rewrite N_ascii_embedding by lia.
    destruct (N.ltb_spec (48 + m) 58); lia.
  - rewrite N_ascii_embedding by lia.
    destruct (N.ltb_spec (87 + m) 58); lia.
Qed.

Lemma digit36_not_minus (m : N) : (m < 36)%N -> digit36 m <> "-"%char.
Proof.
  intros H E. apply (f_equal N_of_ascii) in E. unfold digit36 in E.
  change (N_of_ascii "-") with 45%N in E.
  destruct (N.ltb_spec m 10); rewrite N_ascii_embedding in E by lia; lia.
Qed.

Lemma size_nat_bound (n : N) : (n < 2 ^ N.of_nat (N.size_nat n))%N.
Proof.
  destruct n as [|p]; [reflexivity|]. simpl.
  induction p as [p IH | p IH |]; simpl Pos.size_nat;
    rewrite ?Nat2N.inj_succ, ?N.pow_succ_r'; lia.
Qed.

(** With enough fuel the digits put in front of [acc] read back as [n]. *)
Lemma fromDigits36_digits36 (fuel : nat) :
  forall (n : N) (acc : string),
    (n < 2 ^ N.of_nat fuel)%N ->
    exists k, forall a,
      fromDigits36 a (digits36 fuel n acc) = fromDigits36 (a * k + n) acc.
Proof.
  induction fuel as [|fuel IH]; intros n acc Hn.
  - exists 1%N. intros a. simpl in *. f_equal. lia.
  - rewrite Nat2N.inj_succ, N.pow_succ_r' in Hn. simpl.
    assert (Hmod : (n mod 36 < 36)%N) by (apply N.mod_lt; lia).
    assert (Hdm : n = (36 * (n / 36) + n mod 36)%N)
      by (apply N.div_mod; lia).
    destruct (N.eqb_spec (n / 36) 0) as [E | E].
    + exists 36%N. intros a. cbn [fromDigits36].
      rewrite digitValue_digit36 by lia. f_equal. lia.
    + destruct (IH (n / 36)%N (String (digit36 (n mod 36)) acc)) as [k Hk].
      { apply N.Div0.div_lt_upper_bound; lia. }
      exists (k * 36)%N. intros a. rewrite Hk. cbn [fromDigits36].
      rewrite digitValue_digit36 by lia. f_equal.
      rewrite Hdm at 3. ring.
Qed.

Lemma digits36_head (fuel : nat) :
  forall (n : N) (acc : string),
    exists m rest,
      (m < 36)%N /\ digits36 (S fuel) n acc = String (digit36 m) rest.
Proof.
  induction fuel as [|fuel IH]; intros n acc.
  - exists (n mod 36)%N, acc. split; [apply N.mod_lt; lia|].
    simpl. now destruct (n / 36 =? 0)%N.
  - change (digits36 (S (S fuel)) n acc)
      with (if (n / 36 =? 0)%N then String (digit36 (n mod 36)) acc
            else digits36 (S fuel) (n / 36) (String (digit36 (n mod 36)) acc)).
    destruct (n / 36 =? 0)%N.
    + exists (n mod 36)%N, acc. split; [apply N.mod_lt; lia | reflexivity].
    + apply IH.
Qed.

Lemma digits_read_back (n : N) :
  fromDigits36 0 (digits36 (S (N.size_nat n)) n "") = n.
Proof.
  destruct (fromDigits36_digits36 (S (N.size_nat n)) n "") as [k Hk].
  - rewrite Nat2N.inj_succ, N.pow_succ_r'.
    pose proof (size_nat_bound n). lia.
  - rewrite Hk. simpl. lia.
Qed.

Lemma toString36_injective (x y : Z) :
  toString36 x = toString36 y -> x = y.
Proof.
  unfold toString36.
  destruct (Z.ltb_spec x 0) as [Hx | Hx], (Z.ltb_spec y 0) as [Hy | Hy];
    intros E.
  - remember (digits36 (S (N.size_nat (Z.to_N (- x)))) (Z.to_N (- x)) "")
      as dx eqn:Edx.
    remember (digits36 (S (N.size_nat (Z.to_N (- y)))) (Z.to_N (- y)) "")
      as dy eqn:Edy.
    injection E as E. apply (f_equal (fromDigits36 0)) in E.
    rewrite Edx, Edy, !digits_read_back in E. lia.
  - destruct (digits36_head (N.size_nat (Z.to_N y)) (Z.to_N y) "")
      as [m [rest [Hm Hd]]].
    rewrite Hd in E. injection E as E _. symmetry in E.
    now apply digit36_not_minus in E.
  - destruct (digits36_head (N.size_nat (Z.to_N x)) (Z.to_N x) "")
      as [m [rest [Hm Hd]]].
    rewrite Hd in E. injection E as E _.
    now apply digit36_not_minus in E.
  - apply (f_equal (fromDigits36 0)) in E.
    rewrite !digits_read_back in E. lia.
Qed.

(** X3: [simpleHash] is the polynomial hash of base 31 over the code units
    of the password, wrapped to a signed 32-bit number and printed in base
    36; two passwords get the same fingerprint exactly when their
    polynomials agree modulo 2^32. *)
Theorem simpleHash_polynomial (str : string) :
  simpleHash str = toString36 (toInt32 (polyHash 0 str))
  /\ (-2147483648 <= hashLoop 0 str < 2147483648)%Z
  /\ (forall other,
        simpleHash str = simpleHash other <->
        (polyHash 0 str mod 4294967296
         = polyHash 0 other mod 4294967296)%Z).
Proof.
  assert (H : forall s, hashLoop 0 s = toInt32 (polyHash 0 s)).
  { intros s. apply (hashLoop_polyHash 0 s). }
  unfold simpleHash. rewrite H. split; [reflexivity|].
  split; [apply toInt32_range|].
  intros other. rewrite H, <- toInt32_eq_iff. split.
  - apply toString36_injective.
  - now intros ->.
Qed.

Lemma hashLoop_Aa_BB (before after : string) :
  hashLoop 0 (before ++ "Aa" ++ after) = hashLoop 0 (before ++ "BB" ++ after).
Proof.
  rewrite !hashLoop_app. f_equal.
  simpl. rewrite !hashStep_times_31.
  destruct (toInt32_wraps (31 * hashLoop 0 before + 65)) as [k Hk].
  destruct (toInt32_wraps (31 * hashLoop 0 before + 66)) as [k' Hk'].
  change (Z.of_nat (nat_of_ascii "A")) with 65%Z.
  change (Z.of_nat (nat_of_ascii "a")) with 97%Z.
  change (Z.of_nat (nat_of_ascii "B")) with 66%Z.
  rewrite Hk, Hk'.
  replace (31 * (31 * hashLoop 0 before + 65 + 4294967296 * k) + 97)%Z
    with (961 * hashLoop 0 before + 2112 + 4294967296 * (31 * k))%Z by lia.
  replace (31 * (31 * hashLoop 0 before + 66 + 4294967296 * k') + 66)%Z
    with (961 * hashLoop 0 before + 2112 + 4294967296 * (31 * k'))%Z by lia.
  now rewrite !toInt32_shift.
Qed.

(** X4: the fingerprint does not tell "Aa" from "BB": replacing one by the
    other anywhere in a password leaves the fingerprint as it is. *)
Theorem simpleHash_collides (before after : string) :
  simpleHash (before ++ "Aa" ++ after) = simpleHash (before ++ "BB" ++ after).
Proof.
  unfold simpleHash. f_equal. apply hashLoop_Aa_BB.
Qed.

(** ** Facts about [trim], [toLowerCase] and [includes] *)

Lemma trimStart_blank (s : string) :
  blank s = true -> trimStart s = "".
Proof.
  induction s as [|c r IH]; simpl; [reflexivity|].
  destruct (isWhiteSpace c); simpl; [exact IH | discriminate].
Qed.

Lemma trimStart_not_blank (s : string) :
  blank s = false ->
  exists c r, trimStart s = String c r /\ isWhiteSpace c = false.
Proof.
  induction s as [|c r IH]; simpl; [discriminate|].
  destruct (isWhiteSpace c) eqn:E; simpl; [exact IH|].
  intros _. now exists c, r.
Qed.

Lemma trimEnd_head (c : ascii) (r : string) :
  isWhiteSpace c = false -> trimEnd (String c r) = String c (trimEnd r).
Proof.
  intros E. simpl. now rewrite E.
Qed.

Lemma trim_blank (s : string) : truthy (trim s) = negb (blank s).
Proof.
  unfold trim, truthy. destruct (blank s) eqn:B.
  - now rewrite trimStart_blank.
  - destruct (trimStart_not_blank s B) as [c [r [-> E]]].
    now rewrite trimEnd_head.
Qed.

Lemma trimEnd_idempotent (s : string) : trimEnd (trimEnd s) = trimEnd s.
Proof.
  induction s as [|c r IH]; simpl; [reflexivity|].
  destruct (isWhiteSpace c && (trimEnd r =? "")) eqn:E; [reflexivity|].
  simpl. now rewrite IH, E.
Qed.

Lemma trim_idempotent (s : string) : trim (trim s) = trim s.
Proof.
  unfold trim. destruct (blank s) eqn:B.
  - now rewrite (trimStart_blank s B).
  - destruct (trimStart_not_blank s B) as [c [r [-> E]]].
    rewrite trimEnd_head by exact E. simpl trimStart. rewrite E.
    rewrite <- trimEnd_head by exact E. apply trimEnd_idempotent.
Qed.

Lemma blank_app (a b : string) : blank (a ++ b) = blank a && blank b.
Proof.
  induction a as [|c a IH]; simpl; [reflexivity|].
  now rewrite IH, andb_assoc.
Qed.

Lemma isWhiteSpace_lowerChar (c : ascii) :
  isWhiteSpace (lowerChar c) = isWhiteSpace c.
Proof.
  destruct c as [[] [] [] [] [] [] [] []]; vm_compute; reflexivity.
Qed.

Lemma blank_toLowerCase (s : string) : blank (toLowerCase s) = blank s.
Proof.
  induction s as [|c r IH]; simpl; [reflexivity|].
  now rewrite isWhiteSpace_lowerChar, IH.
Qed.

Lemma prefix_spec (p s : string) :
  String.prefix p s = true <-> exists b, s = p ++ b.
Proof.
  revert s. induction p as [|c p IH]; intros s.
  - split; [now exists s | intros _; destruct s; reflexivity].
  - destruct s as [|d s]; simpl;
      [split; [discriminate | intros [b E]; discriminate E]|].
    destruct (ascii_dec c d) as [-> | N].
    + rewrite IH. split; intros [b E]; exists b; [now rewrite E|].
      now injection E.
    + split; [discriminate|]. intros [b E]. injection E as E _. congruence.
Qed.

Lemma includes_unfold (s sub : string) :
  includes s sub
  = String.prefix sub s
    || match s with
       | EmptyString => false
       | String _ r => includes r sub
       end.
Proof.
  destruct s; reflexivity.
Qed.

Lemma includes_spec (s sub : string) :
  includes s sub = true <-> exists a b, s = a ++ sub ++ b.
Proof.
  split.
  - induction s as [|c r IH];
      rewrite includes_unfold, orb_true_iff, prefix_spec.
    + intros [[b E] | H]; [|discriminate]. now exists "", b.
    + intros [[b E] | H]; [now exists "", b|].
      destruct (IH H) as [a [b ->]]. now exists (String c a), b.
  - intros [a [b ->]]. induction a as [|c a IH];
      rewrite includes_unfold; apply orb_true_iff.
    + left. apply prefix_spec. now exists b.
    + right. exact IH.
Qed.

(** ** Accounts *)

Lemma findUser_none (name : string) (us : list Auth.User) :
  Auth.findUser name us = None <->
  (forall u, In u us ->
     toLowerCase (Auth.username u) <> toLowerCase name).
Proof.
  unfold Auth.findUser. split.
  - intros H u Hu. apply String.eqb_neq. exact (find_none _ _ H u Hu).
  - intros H. destruct (find _ us) as [u|] eqn:E; [|reflexivity].
    apply find_some in E. destruct E as [Hu E]. apply String.eqb_eq in E.
    now elim (H u Hu).
Qed.

Lemma findUser_some (name : string) (us : list Auth.User) (u : Auth.User) :
  Auth.findUser name us = Some u ->
  In u us /\ toLowerCase (Auth.username u) = toLowerCase name.
Proof.
  unfold Auth.findUser. intros E. apply find_some in E.
  destruct E as [Hu E]. now apply String.eqb_eq in E.
Qed.

Lemma findUser_last (name : string) (us : list Auth.User) (u : Auth.User) :
  Auth.findUser name us = None ->
  toLowerCase (Auth.username u) = toLowerCase name ->
  Auth.findUser name (us ++ [u])%list = Some u.
Proof.
  unfold Auth.findUser. intros Hn Hu.
  induction us as [|v us IH]; simpl in *.
  - now rewrite Hu, String.eqb_refl.
  - destruct (toLowerCase (Auth.username v) =? toLowerCase name);
      [discriminate | now apply IH].
Qed.

Lemma setAuthError_rejected (e : string) (a : Auth.Session) :
  e <> "" -> rejected a (Auth.setAuthError e a).
Proof.
  intros He. repeat split; trivial.
Qed.

Lemma handleSignup_accepted (nowId nowCreated : Z) (a : Auth.Session) :
  signupAllowed a ->
  Auth.handleSignup nowId nowCreated a
  = Auth.signedIn (Auth.users a ++ [signupUser nowId nowCreated a])%list
      (signupUser nowId nowCreated a).
Proof.
  intros [Bn [Bp [Sp [L F]]]]. unfold Auth.handleSignup.
  rewrite !trim_blank, Bn, Bp. simpl.
  destruct (includes (Auth.authUsername a) " ") eqn:I.
  { apply includes_spec in I. destruct I as [x [y I]]. now elim (Sp x y). }
  destruct (Nat.ltb_spec (String.length (Auth.authPassword a)) 4); [lia|].
  apply findUser_none in F. now rewrite F.
Qed.

(** X5: [handleSignup] creates the account, signs it in and clears the
    form exactly when the form is acceptable: name and password not blank,
    no space in the name, a password of four code units or more, a name no
    account has (letter case apart).  The account goes at the end of the
    table, with the name trimmed and the fingerprint of the password.
    Otherwise nothing changes but the error shown. *)
Theorem handleSignup_outcome (nowId nowCreated : Z) (a : Auth.Session) :
  (signupAllowed a ->
   Auth.handleSignup nowId nowCreated a
   = Auth.signedIn (Auth.users a ++ [signupUser nowId nowCreated a])%list
       (signupUser nowId nowCreated a))
  /\ (~ signupAllowed a ->
      rejected a (Auth.handleSignup nowId nowCreated a)).
Proof.
  unfold Auth.handleSignup, signupAllowed. rewrite !trim_blank, !negb_involutive.
  destruct (blank (Auth.authUsername a)) eqn:Bn; simpl.
  { split; [intros [H _]; discriminate H|].
    intros _. now apply setAuthError_rejected. }
  destruct (blank (Auth.authPassword a)) eqn:Bp; simpl.
  { split; [intros [_ [H _]]; discriminate H|].
    intros _. now apply setAuthError_rejected. }
  destruct (includes (Auth.authUsername a) " ") eqn:Sp.
  { apply includes_spec in Sp. destruct Sp as [x [y Sp]].
    split; [intros [_ [_ [H _]]]; now elim (H x y)|].
    intros _. now apply setAuthError_rejected. }
  destruct (Nat.ltb_spec (String.length (Auth.authPassword a)) 4) as [L | L].
  { split; [intros [_ [_ [_ [H _]]]]; lia|].
    intros _. now apply setAuthError_rejected. }
  destruct (Auth.findUser (Auth.authUsername a) (Auth.users a)) as [u|] eqn:F.
  { apply findUser_some in F. destruct F as [Hu F].
    split; [intros [_ [_ [_ [_ H]]]]; now elim (H u Hu)|].
    intros _. now apply setAuthError_rejected. }
  split; [reflexivity|]. intros H. elim H.
  repeat split; trivial.
  - intros x y E.
    assert (T : includes (Auth.authUsername a) " " = true)
      by (apply includes_spec; now exists x, y).
    congruence.
  - now apply findUser_none.
Qed.

Lemma bobForm_allowed : signupAllowed bobForm.
Proof.
  unfold signupAllowed. simpl. repeat split; trivial.
  - intros x y E.
    assert (T : includes "Bob" " " = true)
      by (apply includes_spec; now exists x, y).
    discriminate T.
  - intros u [].
Qed.

Lemma handleSignup_outcome_witness :
  Auth.handleSignup 5 6 bobForm
  = Auth.signedIn [signupUser 5 6 bobForm] (signupUser 5 6 bobForm).
Proof.
  destruct (handleSignup_outcome 5 6 bobForm) as [H _].
  exact (H bobForm_allowed).
Defined.

Lemma findUser_first (name : string) (us : list Auth.User) (u : Auth.User) :
  Auth.findUser name us = Some u <-> firstNamed name us u.
Proof.
  unfold Auth.findUser, firstNamed. split.
  - induction us as [|v us IH]; simpl; [discriminate|].
    destruct (toLowerCase (Auth.username v) =? toLowerCase name) eqn:E.
    + intros [= ->]. exists [], us. apply String.eqb_eq in E.
      repeat split; trivial. intros w [].
    + intros F. destruct (IH F) as [before [after [-> [Hb Hu]]]].
      exists (v :: before), after. repeat split; trivial.
      intros w [<- | Hw]; [now apply String.eqb_neq | now apply Hb].
  - intros [before [after [-> [Hb Hu]]]].
    induction before as [|v before IH]; simpl.
    + now rewrite Hu, String.eqb_refl.
    + destruct (String.eqb_spec (toLowerCase (Auth.username v))
                  (toLowerCase name)) as [E | _].
      * elim (Hb v); [now left | exact E].
      * apply IH. intros w Hw. apply Hb. now right.
Qed.

(** X6: [handleLogin] signs in the first account whose name is the typed
    one, letter case apart, and clears the form, whenever name and password
    are not blank and the fingerprint of the typed password is the one
    stored for that account.  When no account is in that case nothing
    changes but the error shown.  The table of accounts is never
    changed. *)
Theorem handleLogin_outcome (a : Auth.Session) :
  Auth.users (Auth.handleLogin a) = Auth.users a
  /\ (forall u, loginAllowed a u ->
        Auth.handleLogin a = Auth.signedIn (Auth.users a) u)
  /\ ((forall u, ~ loginAllowed a u) ->
      rejected a (Auth.handleLogin a)).
Proof.
  unfold Auth.handleLogin, loginAllowed.
  rewrite !trim_blank, !negb_involutive.
  destruct (blank (Auth.authUsername a)) eqn:Bn; simpl.
  { split; [reflexivity|]. split; [intros u [H _]; discriminate H|].
    intros _. now apply setAuthError_rejected. }
  destruct (blank (Auth.authPassword a)) eqn:Bp; simpl.
  { split; [reflexivity|]. split; [intros u [_ [H _]]; discriminate H|].
    intros _. now apply setAuthError_rejected. }
  destruct (Auth.findUser (Auth.authUsername a) (Auth.users a)) as [u|] eqn:F.
  - destruct (Auth.passwordHash u =? simpleHash (Auth.authPassword a)) eqn:P;
      simpl.
    + split; [reflexivity|]. apply String.eqb_eq in P. split.
      * intros v [_ [_ [Hv _]]]. apply findUser_first in Hv.
        rewrite F in Hv. now injection Hv as ->.
      * intros H. elim (H u). repeat split; trivial.
        now apply findUser_first.
    + split; [reflexivity|]. apply String.eqb_neq in P. split.
      * intros v [_ [_ [Hv Hp]]]. apply findUser_first in Hv.
        rewrite F in Hv. injection Hv as ->. now elim P.
      * intros _. now apply setAuthError_rejected.
  - split; [reflexivity|]. split.
    + intros v [_ [_ [Hv _]]]. apply findUser_first in Hv.
      rewrite F in Hv. discriminate Hv.
    + intros _. now apply setAuthError_rejected.
Qed.

(** Bob's account is opened by the name in capitals and the password of
    the sign-up. *)
Lemma handleLogin_outcome_witness :
  Auth.handleLogin
    (Auth.typePassword "AaAa" (Auth.typeUsername "BOB" bobOnly))
  = Auth.signedIn [signupUser 5 6 bobForm] (signupUser 5 6 bobForm).
Proof.
  destruct (handleLogin_outcome
              (Auth.typePassword "AaAa" (Auth.typeUsername "BOB" bobOnly)))
    as [_ [H _]].
  apply (H (signupUser 5 6 bobForm)).
  split; [reflexivity|]. split; [reflexivity|]. split; [|reflexivity].
  exists [], []. split; [reflexivity|]. split; [intros v []|reflexivity].
Defined.

(** A wrong password is turned down. *)
Example handleLogin_wrong_password :
  Auth.authError
    (Auth.handleLogin
       (Auth.typePassword "AaAb" (Auth.typeUsername "Bob" bobOnly)))
  = "Invalid username or password"
  /\ Auth.currentUser
       (Auth.handleLogin
          (Auth.typePassword "AaAb" (Auth.typeUsername "Bob" bobOnly)))
     = None.
Proof.
  vm_compute. split; reflexivity.
Qed.

(** X7: an account that has just been created can be opened again: after
    a sign-up that was accepted with a name that has no white space around
    it, logging out and logging in with the same password and the same
    name, in any letter case, signs the new account in. *)
Theorem signup_logout_login (nowId nowCreated : Z) (a : Auth.Session)
  (name : string) :
  signupAllowed a ->
  trim (Auth.authUsername a) = Auth.authUsername a ->
  toLowerCase name = toLowerCase (Auth.authUsername a) ->
  Auth.handleLogin
    (Auth.typePassword (Auth.authPassword a)
       (Auth.typeUsername name
          (Auth.handleLogout (Auth.handleSignup nowId nowCreated a))))
  = Auth.signedIn (Auth.users a ++ [signupUser nowId nowCreated a])%list
      (signupUser nowId nowCreated a).
Proof.
  intros Hok Htrim Hname.
  rewrite (handleSignup_accepted nowId nowCreated a Hok).
  destruct Hok as [Bn [Bp [_ [_ Hfree]]]].
  unfold Auth.handleLogin. simpl.
  rewrite !trim_blank, Bp.
  rewrite <- (blank_toLowerCase name), Hname, blank_toLowerCase, Bn. simpl.
  rewrite (findUser_last name (Auth.users a) (signupUser nowId nowCreated a)).
  - simpl. now rewrite String.eqb_refl.
  - apply findUser_none. intros u Hu. rewrite Hname. now apply Hfree.
  - simpl. now rewrite Htrim.
Qed.

Lemma signup_logout_login_witness :
  Auth.handleLogin
    (Auth.typePassword (Auth.authPassword bobForm)
       (Auth.typeUsername "BOB"
          (Auth.handleLogout (Auth.handleSignup 5 6 bobForm))))
  = Auth.signedIn [signupUser 5 6 bobForm] (signupUser 5 6 bobForm).
Proof.
  apply (signup_logout_login 5 6 bobForm "BOB" bobForm_allowed);
    reflexivity.
Defined.

(** X8: the password check is as weak as the fingerprint: an account whose
    password contains "Aa" is opened by the password that has "BB" in its
    place. *)
Theorem handleLogin_accepts_collision
  (a : Auth.Session) (u : Auth.User) (before after : string) :
  blank (Auth.authUsername a) = false ->
  Auth.findUser (Auth.authUsername a) (Auth.users a) = Some u ->
  Auth.passwordHash u = simpleHash (before ++ "Aa" ++ after) ->
  Auth.authPassword a = before ++ "BB" ++ after ->
  Auth.handleLogin a = Auth.signedIn (Auth.users a) u.
Proof.
  intros Bn F Hh Hp. unfold Auth.handleLogin.
  unfold simpleHash in *.
  rewrite !trim_blank, Bn, F, Hp, Hh, hashLoop_Aa_BB, String.eqb_refl.
  rewrite !blank_app. simpl blank. now rewrite andb_false_r.
Qed.

Lemma handleLogin_accepts_collision_witness :
  Auth.handleLogin
    (Auth.typePassword "BBAa"
       (Auth.typeUsername "bob"
          (Auth.handleLogout (Auth.handleSignup 5 6 bobForm))))
  = Auth.signedIn [signupUser 5 6 bobForm] (signupUser 5 6 bobForm).
Proof.
  exact (handleLogin_accepts_collision
           (Auth.typePassword "BBAa"
              (Auth.typeUsername "bob"
                 (Auth.handleLogout (Auth.handleSignup 5 6 bobForm))))
           (signupUser 5 6 bobForm) "" "Aa"
           eq_refl eq_refl eq_refl eq_refl).
Defined.

(** X9: sign-up keeps the names of the table distinct, letter case apart,
    when the typed name has no white space around it (the name is stored
    trimmed but compared as typed). *)
Theorem handleSignup_distinctNames (nowId nowCreated : Z) (a : Auth.Session) :
  Auth.distinctNames (Auth.users a) ->
  trim (Auth.authUsername a) = Auth.authUsername a ->
  Auth.distinctNames (Auth.users (Auth.handleSignup nowId nowCreated a)).
Proof.
  intros Hd Htrim. unfold Auth.handleSignup.
  destruct (negb (truthy (trim (Auth.authUsername a)))
            || negb (truthy (trim (Auth.authPassword a)))); [exact Hd|].
  destruct (includes (Auth.authUsername a) " "); [exact Hd|].
  destruct (String.length (Auth.authPassword a) <? 4)%nat; [exact Hd|].
  destruct (Auth.findUser (Auth.authUsername a) (Auth.users a)) eqn:F;
    [exact Hd|].
  unfold Auth.distinctNames in *. simpl. rewrite map_app. simpl.
  rewrite Htrim. apply NoDup_app; [exact Hd | | ].
  - constructor; [intros [] | constructor].
  - intros x Hx [<- | []]. apply in_map_iff in Hx.
    destruct Hx as [u [E Hu]].
    exact (proj1 (findUser_none _ _) F u Hu E).
Qed.

(** With Bob's account in the table, the name "Ann" is taken in and the
    name "BOB" is turned down by the check of the names: in both cases
    the names of the table stay distinct. *)
Lemma handleSignup_distinctNames_witness :
  map Auth.username (Auth.users (Auth.handleSignup 8 9 annForm))
  = ["Bob"; "Ann"]
  /\ Auth.distinctNames (Auth.users (Auth.handleSignup 8 9 annForm))
  /\ Auth.authError (Auth.handleSignup 8 9 secondBobForm)
     = "Username already exists"
  /\ Auth.distinctNames (Auth.users (Auth.handleSignup 8 9 secondBobForm)).
Proof.
  assert (Hbob : Auth.distinctNames [signupUser 5 6 bobForm]).
  { unfold Auth.distinctNames. simpl. constructor; [intros [] | constructor]. }
  split; [reflexivity|]. split; [|split; [reflexivity|]].
  - apply (handleSignup_distinctNames 8 9 annForm); [exact Hbob | reflexivity].
  - apply (handleSignup_distinctNames 8 9 secondBobForm);
      [exact Hbob | reflexivity].
Defined.

(** Without that condition the table can get the same name twice: "bob"
    followed by a TAB is accepted after "bob" and stored as "bob". *)
Example handleSignup_duplicate_name :
  map Auth.username
    (Auth.users
       (Auth.handleSignup 8 8
          (Auth.typePassword "secret"
             (Auth.typeUsername (String "b" (String "o" (String "b"
                                   (String (ascii_of_nat 9) ""))))
                (Auth.handleLogout
                   (Auth.handleSignup 5 6
                      (Auth.typePassword "AaAa"
                         (Auth.typeUsername "bob" noAccount))))))))
  = ["bob"; "bob"].
Proof.
  vm_compute. reflexivity.
Qed.

(** ** Ticking a task and dating it *)

Lemma tasksIn_map (g : Task -> Task) (c : string) (l : list Task) :
  (forall t, category (g t) = category t) ->
  tasksIn c (map g l) = tasksIn c l.
Proof.
  intros Hg. induction l as [|t l IH]; simpl; [reflexivity|].
  now rewrite Hg, IH.
Qed.

Lemma completedIn_map (g : Task -> Task) (c : string) (l : list Task) :
  (forall t, category (g t) = category t) ->
  (forall t, completed (g t) = completed t) ->
  completedIn c (map g l) = completedIn c l.
Proof.
  intros Hg Hd. induction l as [|t l IH]; simpl; [reflexivity|].
  now rewrite Hg, Hd, IH.
Qed.

Lemma progressOf_counts (c : string) (l l' : list Task) :
  tasksIn c l' = tasksIn c l -> completedIn c l' = completedIn c l ->
  progressOf c l' = progressOf c l.
Proof.
  intros Hn Hd. unfold progressOf.
  now rewrite !catTasks_length, !completedCount_completedIn, Hn, Hd.
Qed.

Lemma find_map_same_id (g : Task -> Task) (i : string) (l : list Task) :
  (forall t, id (g t) = id t) ->
  find (fun t => id t =? i) (map g l)
  = option_map g (find (fun t => id t =? i) l).
Proof.
  intros Hg. induction l as [|t l IH]; simpl; [reflexivity|].
  rewrite Hg. destruct (id t =? i); [reflexivity | exact IH].
Qed.

Lemma setTasks_same (s : State) : setTasks (fun l => l) s = s.
Proof.
  now destruct s.
Qed.

Lemma setTasks_twice (f g : list Task -> list Task) (s : State) :
  setTasks g (setTasks f s) = setTasks (fun l => g (f l)) s.
Proof.
  reflexivity.
Qed.

Lemma setTasks_ext (f g : list Task -> list Task) (s : State) :
  f (tasks s) = g (tasks s) -> setTasks f s = setTasks g s.
Proof.
  intros E. unfold setTasks. now rewrite E.
Qed.

(** X10: ticking is its own inverse: [toggleComplete] applied twice to the
    same identifier gives the state back.  One application keeps the
    identifiers and their order, and the number of tasks of every
    category. *)
Theorem toggleComplete_twice (i : string) (s : State) :
  toggleComplete i (toggleComplete i s) = s
  /\ map id (tasks (toggleComplete i s)) = map id (tasks s)
  /\ (forall c, tasksIn c (tasks (toggleComplete i s)) = tasksIn c (tasks s)).
Proof.
  unfold toggleComplete at 2 3 4.
  destruct (find (fun t => id t =? i) (tasks s)) as [t|] eqn:F.
  - split; [|split].
    + unfold toggleComplete. cbn [tasks setTasks].
      rewrite find_map_same_id, F
        by (intros u; destruct (id u =? i); reflexivity).
      cbn [option_map]. rewrite setTasks_twice.
      rewrite <- (setTasks_same s) at 2. apply setTasks_ext.
      rewrite map_map. rewrite <- (map_id (tasks s)) at 2.
      apply map_ext. intros u. destruct (id u =? i) eqn:E; [|now rewrite E].
      cbn [id]. rewrite E. destruct u. simpl. now rewrite negb_involutive.
    + cbn [tasks setTasks]. rewrite map_map. apply map_ext.
      intros u. now destruct (id u =? i).
    + intros c. cbn [tasks setTasks]. apply tasksIn_map.
      intros u. now destruct (id u =? i).
  - unfold toggleComplete. rewrite F. repeat split.
Qed.

(** X11: for a given task the date set last is the one that stays, and a
    date changes neither the identifiers, nor their order, nor any
    statistic of a category. *)
Theorem updateTaskDate_last_wins (i : string) (d1 d2 : Z) (s : State) :
  updateTaskDate i d2 (updateTaskDate i d1 s) = updateTaskDate i d2 s
  /\ map id (tasks (updateTaskDate i d1 s)) = map id (tasks s)
  /\ categoryStats (updateTaskDate i d1 s) = categoryStats s.
Proof.
  split; [|split].
  - unfold updateTaskDate. rewrite setTasks_twice. apply setTasks_ext.
    rewrite map_map. apply map_ext. intros u.
    destruct (id u =? i) eqn:E; cbn [id]; now rewrite E.
  - simpl. rewrite map_map. apply map_ext.
    intros u. now destruct (id u =? i).
  - unfold categoryStats. cbn [tasks categories updateTaskDate setTasks].
    apply map_ext. intros c. f_equal.
    + rewrite !catTasks_length. apply tasksIn_map.
      intros u. now destruct (id u =? i).
    + apply progressOf_counts.
      * apply tasksIn_map. intros u. now destruct (id u =? i).
      * apply completedIn_map; intros u; now destruct (id u =? i).
Qed.

(** ** Saving the sheet *)

Lemma includesStr_In (l : list string) (x : string) :
  includesStr l x = true <-> In x l.
Proof.
  unfold includesStr. rewrite existsb_exists. split.
  - intros [c [Hc E]]. apply String.eqb_eq in E. now subst.
  - intros H. exists x. split; [exact H | apply String.eqb_refl].
Qed.

Lemma truthy_true (x : string) : truthy x = true <-> x <> "".
Proof.
  unfold truthy. apply eqb_neq_true.
Qed.

(** X12: saving from the sheet keeps the names of the active categories
    distinct and not empty: whatever the mode, the active categories after
    a save are the ones before, followed at most by the trimmed text, and
    that only when it was not among them. *)
Theorem handleSave_categories (nowId nowCreated : Z) (s : State) :
  NoDup (categories s) ->
  ~ In "" (categories s) ->
  NoDup (categories (handleSave nowId nowCreated s))
  /\ ~ In "" (categories (handleSave nowId nowCreated s))
  /\ (categories (handleSave nowId nowCreated s) = categories s
      \/ (categories (handleSave nowId nowCreated s)
          = (categories s ++ [trim (textInput s)])%list
          /\ sheetMode s = ADD_CATEGORY
          /\ ~ In (trim (textInput s)) (categories s))).
Proof.
  intros Hnd Hne. unfold handleSave.
  destruct (truthy (trim (textInput s))) eqn:T; simpl; [|auto].
  apply truthy_true in T.
  destruct (sheetMode s) eqn:M; simpl;
    try (destruct (editingId s); simpl; auto; fail); auto.
  destruct (includesStr (categories s) (trim (textInput s))) eqn:I; simpl;
    [auto|].
  assert (Hnew : ~ In (trim (textInput s)) (categories s)).
  { intros H. apply includesStr_In in H. congruence. }
  split; [|split].
  - apply NoDup_app; [exact Hnd | constructor; [intros [] | constructor] |].
    intros x Hx [<- | []]. now apply Hnew.
  - intros H. apply in_app_or in H. destruct H as [H | [H | []]]; auto.
  - right. auto.
Qed.

Lemma handleSave_categories_witness :
  NoDup (categories (handleSave 0 0 (setTextInput " Garden "
                                       (openAddCategorySheet twoTasks)))).
Proof.
  destruct twoTasks_holds as [_ [Ec _]].
  assert (Hc : forall v s,
             categories (setTextInput v (openAddCategorySheet s))
             = categories s) by reflexivity.
  assert (Hnd : NoDup (categories (setTextInput " Garden "
                                     (openAddCategorySheet twoTasks)))).
  { rewrite Hc, Ec. repeat constructor; simpl; intuition discriminate. }
  assert (Hne : ~ In "" (categories (setTextInput " Garden "
                                       (openAddCategorySheet twoTasks)))).
  { rewrite Hc, Ec. simpl. intuition discriminate. }
  destruct (handleSave_categories 0 0 _ Hnd Hne) as [H _]. exact H.
Defined.

(** X13: a text made of white space only is never saved: in every mode the
    save changes nothing. *)
Theorem handleSave_blank (nowId nowCreated : Z) (s : State) :
  blank (textInput s) = true -> handleSave nowId nowCreated s = s.
Proof.
  intros B. unfold handleSave. now rewrite trim_blank, B.
Qed.

Lemma handleSave_blank_witness :
  handleSave 3 3 (setTextInput "   " (openAddSheet twoTasks))
  = setTextInput "   " (openAddSheet twoTasks).
Proof.
  apply (handleSave_blank 3 3 (setTextInput "   " (openAddSheet twoTasks))).
  reflexivity.
Defined.

(** X14: saving an edit keeps, for every task and in order, the
    identifier, the creation time and the completion; tasks with another
    identifier are left as they are, and nothing but the active tasks
    changes. *)
Theorem handleSave_edit_keeps (nowId nowCreated : Z) (s : State) (i : string) :
  sheetMode s = EDIT_TASK ->
  editingTaskId s = Some i ->
  i <> "" ->
  map id (tasks (handleSave nowId nowCreated s)) = map id (tasks s)
  /\ map createdAt (tasks (handleSave nowId nowCreated s))
     = map createdAt (tasks s)
  /\ map completed (tasks (handleSave nowId nowCreated s))
     = map completed (tasks s)
  /\ (forall t, In t (tasks s) -> id t <> i ->
                In t (tasks (handleSave nowId nowCreated s)))
  /\ categories (handleSave nowId nowCreated s) = categories s
  /\ archivedTasks (handleSave nowId nowCreated s) = archivedTasks s.
Proof.
  intros M E Hi. unfold handleSave, editingId. rewrite M, E.
  apply truthy_true in Hi. rewrite Hi.
  destruct (negb (truthy (trim (textInput s)))); [repeat split; trivial|].
  cbn [isMode tasks categories archivedTasks setTasks].
  split; [|split; [|split; [|split; [|split]]]]; try reflexivity.
  - rewrite map_map. apply map_ext. intros t. now destruct (id t =? i).
  - rewrite map_map. apply map_ext. intros t. now destruct (id t =? i).
  - rewrite map_map. apply map_ext. intros t. now destruct (id t =? i).
  - intros t Ht Hne. apply in_map_iff. exists t. split; [|exact Ht].
    apply String.eqb_neq in Hne. now rewrite Hne.
Qed.

Lemma handleSave_edit_keeps_witness :
  map id (tasks (handleSave 3 3 (setTextInput "Ship v2"
                                   (openEditSheet shipV1 twoTasks))))
  = map id (tasks (setTextInput "Ship v2" (openEditSheet shipV1 twoTasks))).
Proof.
  destruct (handleSave_edit_keeps 3 3
              (setTextInput "Ship v2" (openEditSheet shipV1 twoTasks))
              "task_7" eq_refl eq_refl) as [H _]; [discriminate | exact H].
Defined.

(** X15: a task added with the add button while a category is viewed
    (neither the whole list nor the archive page), with no search going on,
    goes on top of the active list in the viewed category, not completed,
    with the trimmed text, and is displayed.  The add button calls the
    [openAddSheet] of the last render; the key [n] may not, see
    [n_key_after_change_of_view]. *)
Theorem new_task_in_view (nowId nowCreated : Z) (s : State) (v : string) :
  activeCategory s <> "All" ->
  activeCategory s <> "Archive" ->
  searchQuery s = "" ->
  blank v = false ->
  exists t,
    tasks (handleSave nowId nowCreated (setTextInput v (openAddSheet s)))
    = t :: tasks s
    /\ id t = taskId nowId
    /\ text t = trim v
    /\ category t = activeCategory s
    /\ completed t = false
    /\ createdAt t = nowCreated
    /\ displayed
         (handleSave nowId nowCreated (setTextInput v (openAddSheet s))) t.
Proof.
  intros Hc Ha Hq Hv. apply String.eqb_neq in Hc.
  eexists. unfold displayed, handleSave.
  cbn [textInput setTextInput openAddSheet setSelectedPriority
         setSelectedCategory setSelectedDueDate setDescriptionInput
         setEditingTaskId setSheetMode sheetMode].
  rewrite trim_blank, Hv. cbn [negb isMode].
  cbn [tasks setTasks]. split; [reflexivity|].
  cbn [newTask id text category completed createdAt selectedCategory
         setTextInput openAddSheet setSelectedPriority setSelectedCategory
         setSelectedDueDate setDescriptionInput setEditingTaskId
         setSheetMode activeCategory].
  rewrite Hc. repeat (split; [reflexivity|]).
  split; [exact Ha|].
  unfold filteredTasks. apply filter_In. split; [now left|].
  cbn [newTask category text activeCategory searchQuery setTasks
         selectedCategory setTextInput openAddSheet setSelectedPriority
         setSelectedCategory setSelectedDueDate setDescriptionInput
         setEditingTaskId setSheetMode].
  rewrite Hc, Hq, String.eqb_refl. simpl toLowerCase at 2.
  now rewrite includes_empty, orb_true_r.
Qed.

Lemma new_task_in_view_witness :
  exists t,
    tasks (handleSave 11 11
             (setTextInput "Call Ann"
                (openAddSheet (setActiveCategory "Home" twoTasks))))
    = t :: tasks (setActiveCategory "Home" twoTasks)
    /\ category t = "Home"
    /\ displayed
         (handleSave 11 11
            (setTextInput "Call Ann"
               (openAddSheet (setActiveCategory "Home" twoTasks)))) t.
Proof.
  destruct (new_task_in_view 11 11 (setActiveCategory "Home" twoTasks)
              "Call Ann") as [t [E [_ [_ [C [_ [_ D]]]]]]];
    [discriminate | discriminate | reflexivity | reflexivity |].
  exists t. split; [exact E | split; [exact C | exact D]].
Defined.

(** The add button and the key [n] do the same when the listener of the
    key is the one of the last render. *)
Lemma openAddSheetSeen_last_render (s : State) :
  openAddSheetSeen (activeCategory s) s = openAddSheet s.
Proof.
  reflexivity.
Qed.

(** After a change of view alone they differ.  In [twoTasks] the whole
    list is viewed and the listener has just been registered; "Home" is
    then chosen in the side bar, [n] pressed and "Call Ann" entered: the
    task is filed under "Personal", which is no category of the user, and
    the list displayed for "Home" does not have it. *)
Example n_key_after_change_of_view :
  activeCategory twoTasks = "All"
  /\ tasks (handleSave 11 11
              (setTextInput "Call Ann"
                 (openAddSheetSeen (activeCategory twoTasks)
                    (setActiveCategory "Home" twoTasks))))
     = callAnn :: tasks twoTasks
  /\ category callAnn = "Personal"
  /\ ~ In "Personal" (categories twoTasks)
  /\ filteredTasks
       (handleSave 11 11
          (setTextInput "Call Ann"
             (openAddSheetSeen (activeCategory twoTasks)
                (setActiveCategory "Home" twoTasks))))
     = [buyMilk].
Proof.
  split; [vm_compute; reflexivity|].
  split; [vm_compute; reflexivity|].
  split; [reflexivity|].
  split.
  - destruct twoTasks_holds as [_ [Ec _]]. rewrite Ec. simpl.
    intuition discriminate.
  - vm_compute. reflexivity.
Qed.

Lemma unique_by_id (l : list Task) (t u : Task) :
  NoDup (map id l) -> In t l -> In u l -> id u = id t -> u = t.
Proof.
  induction l as [|a l IH]; simpl; intros Hnd Ht Hu E; [contradiction|].
  inversion Hnd as [|? ? Hfresh Hnd']; subst.
  destruct Ht as [-> | Ht], Hu as [-> | Hu]; trivial.
  - elim Hfresh. rewrite <- E. now apply in_map.
  - elim Hfresh. rewrite E. now apply in_map.
  - now apply IH.
Qed.

(** X16: opening a task for editing and saving it untouched changes no
    task, for a task as the sheet makes them (a text and a description
    with no white space around, the text not empty), when the identifiers
    of the active tasks are distinct and that of the task is not empty. *)
Theorem edit_untouched (nowId nowCreated : Z) (s : State) (t : Task)
  (d : string) :
  In t (tasks s) ->
  NoDup (map id (tasks s)) ->
  id t <> "" ->
  text t <> "" ->
  trim (text t) = text t ->
  description t = Some d ->
  trim d = d ->
  tasks (handleSave nowId nowCreated (openEditSheet t s)) = tasks s.
Proof.
  intros Hin Hnd Hid Htext Htrim Hdesc Hd.
  apply truthy_true in Hid. apply truthy_true in Htext.
  unfold handleSave, editingId, openEditSheet.
  cbn [textInput sheetMode editingTaskId openTaskSheet setSelectedPriority
         setSelectedCategory setSelectedDueDate setDescriptionInput
         setTextInput setEditingTaskId setSheetMode].
  rewrite Htrim, Htext, Hid. cbn [negb isMode tasks setTasks].
  change (tasks (openTaskSheet EDIT_TASK t s)) with (tasks s).
  rewrite <- (map_id (tasks s)) at 2. apply map_ext_in. intros u Hu.
  destruct (id u =? id t) eqn:E; [|reflexivity].
  apply String.eqb_eq in E.
  rewrite (unique_by_id (tasks s) t u Hnd Hin Hu E).
  unfold editTask.
  cbn [textInput descriptionInput selectedCategory selectedPriority
         selectedDueDate openTaskSheet setSelectedPriority
         setSelectedCategory setSelectedDueDate setDescriptionInput
         setTextInput setEditingTaskId setSheetMode].
  rewrite Htrim, Hdesc.
  assert (Ed : orElse (Some d) "" = d).
  { unfold orElse, truthy. destruct (d =? "") eqn:Z; [|reflexivity].
    apply String.eqb_eq in Z. now subst. }
  rewrite Ed, Hd. destruct t. simpl in *. now subst.
Qed.

Lemma edit_untouched_witness :
  tasks (handleSave 3 3 (openEditSheet shipV1 twoTasks)) = tasks twoTasks.
Proof.
  destruct twoTasks_holds as [Et _].
  apply (edit_untouched 3 3 twoTasks shipV1 "").
  - rewrite Et. simpl. auto.
  - rewrite Et. simpl. repeat constructor; simpl; intuition discriminate.
  - discriminate.
  - discriminate.
  - reflexivity.
  - reflexivity.
  - reflexivity.
Defined.

(** ** The displayed list *)


(** ** No task is lost between the list and the archive *)

Lemma NoDup_ids_perm (l l' : list Task) :
  Permutation l l' -> NoDup (map id l) -> NoDup (map id l').
Proof.
  intros P. apply Permutation_NoDup. now apply Permutation_map.
Qed.

Lemma NoDup_ids_app_filter (p : Task -> bool) (l1 l2 : list Task) :
  NoDup (map id (l1 ++ l2)%list) ->
  NoDup (map id (l1 ++ filter p l2)%list).
Proof.
  induction l1 as [|a l1 IH]; simpl.
  - induction l2 as [|b l2 IH2]; simpl; [trivial|].
    intros H. inversion H as [|? ? Hb Hl]; subst.
    destruct (p b); [|now apply IH2].
    simpl. constructor; [|now apply IH2].
    intros Hin. apply Hb. apply in_map_iff in Hin.
    destruct Hin as [u [E Hu]]. apply filter_In in Hu.
    apply in_map_iff. exists u. tauto.
  - intros H. inversion H as [|? ? Ha Hl]; subst.
    constructor; [|now apply IH].
    intros Hin. apply Ha. apply in_map_iff in Hin.
    destruct Hin as [u [E Hu]]. apply in_map_iff. exists u.
    split; [exact E|]. apply in_app_or in Hu. apply in_or_app.
    destruct Hu as [Hu | Hu]; [now left | right].
    apply filter_In in Hu. tauto.
Qed.

Lemma deleteTask_conserves (i : string) (s : State) :
  NoDup (map id (tasks s)) ->
  Permutation (tasks (deleteTask i s) ++ archivedTasks (deleteTask i s))
    (tasks s ++ archivedTasks s).
Proof.
  intros Hnd. unfold deleteTask.
  destruct (find (fun t => id t =? i) (tasks s)) as [t|] eqn:F;
    [|reflexivity].
  apply find_some in F. destruct F as [Hin E].
  apply String.eqb_eq in E. subst i. simpl.
  rewrite <- Permutation_middle.
  exact (Permutation_app_tail (archivedTasks s)
           (front_of_unique_id t (tasks s) Hnd Hin)).
Qed.

Lemma restoreTask_conserves (t : Task) (s : State) :
  NoDup (map id (archivedTasks s)) ->
  In t (archivedTasks s) ->
  Permutation
    (tasks (restoreTaskFromArchive t s)
     ++ archivedTasks (restoreTaskFromArchive t s))
    (tasks s ++ archivedTasks s).
Proof.
  intros Hnd Hin. simpl. rewrite Permutation_middle.
  apply Permutation_app_head. now apply front_of_unique_id.
Qed.

Lemma idsDistinct_parts (s : State) :
  idsDistinct s ->
  NoDup (map id (tasks s)) /\ NoDup (map id (archivedTasks s)).
Proof.
  unfold idsDistinct. rewrite map_app. intros H.
  split; [now apply NoDup_app_remove_r in H | now apply NoDup_app_remove_l in H].
Qed.

(** X18: when no identifier is carried by two tasks, archiving and
    restoring keep it so and lose nothing: after [deleteTask] and after
    [restoreTaskFromArchive] of an archived task, the active and archived
    tasks taken together are the same tasks as before.  Purging, ticking,
    dating and deleting a category keep identifiers distinct as well, and
    so does a save when the identifier made from the clock is not in
    use. *)
Theorem archive_keeps_tasks (s : State) :
  idsDistinct s ->
  (forall i,
     idsDistinct (deleteTask i s)
     /\ Permutation (tasks (deleteTask i s) ++ archivedTasks (deleteTask i s))
          (tasks s ++ archivedTasks s))
  /\ (forall t, In t (archivedTasks s) ->
        idsDistinct (restoreTaskFromArchive t s)
        /\ Permutation
             (tasks (restoreTaskFromArchive t s)
              ++ archivedTasks (restoreTaskFromArchive t s))
             (tasks s ++ archivedTasks s))
  /\ (forall i, idsDistinct (permanentlyDeleteTask i s))
  /\ (forall i, idsDistinct (toggleComplete i s))
  /\ (forall i d, idsDistinct (updateTaskDate i d s))
  /\ (forall c, idsDistinct (deleteCategory c s))
  /\ (forall nowId nowCreated,
        ~ In (taskId nowId) (map id (tasks s ++ archivedTasks s)%list) ->
        idsDistinct (handleSave nowId nowCreated s)).
Proof.
  intros H. destruct (idsDistinct_parts s H) as [Ht Ha].
  assert (Hmap : forall (g : Task -> Task) s',
             (forall u, id (g u) = id u) ->
             tasks s' = map g (tasks s) ->
             archivedTasks s' = archivedTasks s ->
             idsDistinct s').
  { intros g s' Hg E1 E2. unfold idsDistinct. rewrite E1, E2.
    rewrite map_app, map_map. rewrite (map_ext _ id Hg).
    rewrite <- map_app. exact H. }
  split; [|split; [|split; [|split; [|split; [|split]]]]].
  - intros i. pose proof (deleteTask_conserves i s Ht) as P.
    split; [|exact P]. apply (NoDup_ids_perm _ _ (Permutation_sym P) H).
  - intros t Hin. pose proof (restoreTask_conserves t s Ha Hin) as P.
    split; [|exact P]. apply (NoDup_ids_perm _ _ (Permutation_sym P) H).
  - intros i. unfold idsDistinct. simpl. now apply NoDup_ids_app_filter.
  - intros i. unfold toggleComplete.
    destruct (find _ (tasks s)); [|exact H].
    eapply Hmap; [|reflexivity|reflexivity].
    intros u. cbv beta. now destruct (id u =? i).
  - intros i d. eapply Hmap; [|reflexivity|reflexivity].
    intros u. cbv beta. now destruct (id u =? i).
  - intros c. eapply Hmap;
      [|apply deleteCategory_tasks|apply deleteCategory_archivedTasks].
    intros u. cbv beta. now destruct (category u =? c).
  - intros nowId nowCreated Hfresh. unfold handleSave.
    destruct (negb (truthy (trim (textInput s)))); [exact H|].
    destruct (isMode (sheetMode s) ADD_CATEGORY).
    { now destruct (negb (includesStr (categories s) (trim (textInput s)))). }
    assert (Hnew : idsDistinct
                     (setTasks (fun prev => newTask nowId nowCreated s :: prev)
                        s)).
    { unfold idsDistinct. simpl. constructor; [exact Hfresh | exact H]. }
    destruct (isMode (sheetMode s) EDIT_TASK); [|exact Hnew].
    destruct (editingId s) as [i|]; [|exact Hnew].
    eapply Hmap; [|reflexivity|reflexivity].
    intros u. cbv beta. now destruct (id u =? i).
Qed.

Lemma twoTasks_idsDistinct : idsDistinct twoTasks.
Proof.
  destruct twoTasks_holds as [Et [_ Ea]]. unfold idsDistinct.
  rewrite Et, Ea. simpl. repeat constructor; simpl; intuition discriminate.
Qed.

Lemma archive_keeps_tasks_witness :
  idsDistinct (deleteTask "task_7" twoTasks)
  /\ Permutation
       (tasks (deleteTask "task_7" twoTasks)
        ++ archivedTasks (deleteTask "task_7" twoTasks))
       (tasks twoTasks ++ archivedTasks twoTasks).
Proof.
  destruct (archive_keeps_tasks twoTasks twoTasks_idsDistinct) as [H _].
  exact (H "task_7").
Defined.

(** ** Undoing the deletion of a category *)

(** X19: the undo of a category deletion gives the category back, at the
    end of the active list, but not its tasks: with no task deletion
    pending, for a category with a name that was not archived already,
    [deleteCategory] followed by [undoDelete] leaves the archived
    categories as they were, the category last among the active ones, and
    the tasks where the deletion moved them; nothing is pending any more,
    and a second undo changes nothing. *)
Theorem deleteCategory_undo (s : State) (cat : string) :
  lastDeletedTask s = None ->
  cat <> "" ->
  ~ In cat (archivedCategories s) ->
  categories (undoDelete (deleteCategory cat s))
  = (remove string_dec cat (categories s) ++ [cat])%list
  /\ archivedCategories (undoDelete (deleteCategory cat s))
     = archivedCategories s
  /\ tasks (undoDelete (deleteCategory cat s))
     = map (reassign cat (firstNamedOtherOrGeneral cat (categories s)))
         (tasks s)
  /\ lastDeletedCategory (undoDelete (deleteCategory cat s)) = None
  /\ undoDelete (undoDelete (deleteCategory cat s))
     = undoDelete (deleteCategory cat s).
Proof.
  intros Hlast Hname Harch.
  assert (Hu : undoDelete (deleteCategory cat s)
               = setIsToastActive false
                   (setLastDeletedCategory None
                      (setCategories (fun prev => (prev ++ [cat])%list)
                         (setArchivedCategories
                            (filter (fun c => negb (c =? cat)))
                            (deleteCategory cat s))))).
  { unfold undoDelete, pendingCategory.
    rewrite (proj2 (deleteCategory_lastDeleted cat s)), Hlast.
    rewrite (proj1 (deleteCategory_lastDeleted cat s)).
    apply truthy_true in Hname. now rewrite Hname. }
  rewrite Hu. cbn [categories archivedCategories tasks lastDeletedCategory
                     setIsToastActive setLastDeletedCategory setCategories
                     setArchivedCategories].
  split; [|split; [|split; [|split]]].
  - now rewrite deleteCategory_categories, filter_ne_remove.
  - unfold deleteCategory.
    destruct (activeCategory s =? cat); simpl; rewrite String.eqb_refl;
      simpl; apply filter_all; intros x Hx; apply eqb_neq_true;
      intros ->; contradiction.
  - rewrite deleteCategory_tasks, fallbackCategory_firstNamed.
    apply map_ext. intros t. apply reassign_code.
  - reflexivity.
  - unfold undoDelete at 1, pendingCategory.
    cbn [lastDeletedTask lastDeletedCategory setIsToastActive
           setLastDeletedCategory setCategories setArchivedCategories].
    now rewrite (proj2 (deleteCategory_lastDeleted cat s)), Hlast.
Qed.

Lemma deleteCategory_undo_witness :
  categories (undoDelete (deleteCategory "Work" twoTasks))
  = (remove string_dec "Work" (categories twoTasks) ++ ["Work"])%list.
Proof.
  assert (H1 : lastDeletedTask twoTasks = None) by (vm_compute; reflexivity).
  assert (H2 : ~ In "Work" (archivedCategories twoTasks)).
  { assert (E : archivedCategories twoTasks = [])
      by (vm_compute; reflexivity).
    rewrite E. intros []. }
  destruct (deleteCategory_undo twoTasks "Work" H1) as [H _];
    [discriminate | exact H2 | exact H].
Defined.

(** ** No category is lost between the list and the archive *)

Lemma remove_front (c : string) (l : list string) :
  NoDup l -> In c l ->
  Permutation (c :: filter (fun x => negb (x =? c)) l) l.
Proof.
  induction l as [|a l IH]; simpl; intros Hnd Hin; [contradiction|].
  inversion Hnd as [|? ? Hfresh Hnd']; subst.
  destruct Hin as [-> | Hin].
  - rewrite String.eqb_refl. simpl. rewrite filter_all; [reflexivity|].
    intros x Hx. apply eqb_neq_true. intros ->. contradiction.
  - destruct (a =? c) eqn:E.
    + apply String.eqb_eq in E. subst. contradiction.
    + simpl. rewrite perm_swap. apply perm_skip. now apply IH.
Qed.

Lemma NoDup_app_filter (p : string -> bool) (l1 l2 : list string) :
  NoDup (l1 ++ l2)%list -> NoDup (l1 ++ filter p l2)%list.
Proof.
  induction l1 as [|a l1 IH]; simpl.
  - apply NoDup_filter.
  - intros H. inversion H as [|? ? Ha Hl]; subst.
    constructor; [|now apply IH].
    intros Hin. apply Ha. apply in_app_or in Hin. apply in_or_app.
    destruct Hin as [Hin | Hin]; [now left | right].
    apply filter_In in Hin. tauto.
Qed.

(** X20: when no name is carried by two categories, deleting an active
    category and restoring an archived one keep it so and lose nothing:
    the active and archived names taken together are the same as before.
    Purging keeps the names distinct, and so does a save, provided the
    trimmed text is not the name of an archived category (the save looks
    at the active names only). *)
Theorem archive_keeps_categories (s : State) :
  namesDistinct s ->
  (forall c, In c (categories s) ->
     namesDistinct (deleteCategory c s)
     /\ Permutation
          (categories (deleteCategory c s)
           ++ archivedCategories (deleteCategory c s))
          (categories s ++ archivedCategories s))
  /\ (forall c, In c (archivedCategories s) ->
        namesDistinct (restoreCategoryFromArchive c s)
        /\ Permutation
             (categories (restoreCategoryFromArchive c s)
              ++ archivedCategories (restoreCategoryFromArchive c s))
             (categories s ++ archivedCategories s))
  /\ (forall c, namesDistinct (permanentlyDeleteCategory c s))
  /\ (forall nowId nowCreated,
        ~ In (trim (textInput s)) (archivedCategories s) ->
        namesDistinct (handleSave nowId nowCreated s)).
Proof.
  intros H. unfold namesDistinct in *.
  assert (Hc : NoDup (categories s)) by now apply NoDup_app_remove_r in H.
  assert (Ha : NoDup (archivedCategories s))
    by now apply NoDup_app_remove_l in H.
  split; [|split; [|split]].
  - intros c Hin.
    assert (P : Permutation
                  (categories (deleteCategory c s)
                   ++ archivedCategories (deleteCategory c s))
                  (categories s ++ archivedCategories s)).
    { rewrite deleteCategory_categories.
      replace (archivedCategories (deleteCategory c s))
        with (c :: archivedCategories s)
        by (unfold deleteCategory;
            destruct (activeCategory s =? c); reflexivity).
      rewrite <- Permutation_middle.
      exact (Permutation_app_tail (archivedCategories s)
               (remove_front c (categories s) Hc Hin)). }
    split; [|exact P]. exact (Permutation_NoDup (Permutation_sym P) H).
  - intros c Hin.
    assert (P : Permutation
                  (categories (restoreCategoryFromArchive c s)
                   ++ archivedCategories (restoreCategoryFromArchive c s))
                  (categories s ++ archivedCategories s)).
    { simpl. rewrite <- app_assoc. apply Permutation_app_head. simpl.
      now apply remove_front. }
    split; [|exact P]. exact (Permutation_NoDup (Permutation_sym P) H).
  - intros c. simpl. now apply NoDup_app_filter.
  - intros nowId nowCreated Hfree. unfold handleSave.
    destruct (negb (truthy (trim (textInput s)))); [exact H|].
    destruct (isMode (sheetMode s) ADD_CATEGORY).
    + destruct (includesStr (categories s) (trim (textInput s))) eqn:I;
        simpl; [exact H|].
      assert (Hnew : ~ In (trim (textInput s)) (categories s)).
      { intros Hin. apply includesStr_In in Hin. congruence. }
      rewrite <- app_assoc. simpl.
      apply (Permutation_NoDup
               (Permutation_middle (categories s) (archivedCategories s)
                  (trim (textInput s)))).
      constructor; [|exact H].
      intros Hin. apply in_app_or in Hin. tauto.
    + destruct (isMode (sheetMode s) EDIT_TASK); [|exact H].
      now destruct (editingId s).
Qed.

Lemma twoTasks_namesDistinct : namesDistinct twoTasks.
Proof.
  unfold namesDistinct.
  assert (E : archivedCategories twoTasks = []) by (vm_compute; reflexivity).
  destruct twoTasks_holds as [_ [Ec _]]. rewrite Ec, E. simpl.
  repeat constructor; simpl; intuition discriminate.
Qed.

Lemma archive_keeps_categories_witness :
  namesDistinct (deleteCategory "Work" twoTasks).
Proof.
  destruct twoTasks_holds as [_ [Ec _]].
  assert (Hin : In "Work" (categories twoTasks))
    by (rewrite Ec; simpl; auto).
  destruct (archive_keeps_categories twoTasks twoTasks_namesDistinct)
    as [H _].
  exact (proj1 (H "Work" Hin)).
Defined.

(** ** Identifiers made from the clock *)

Lemma to_int_not_nil (z : Z) :
  Z.to_int z <> Decimal.Pos Decimal.Nil
  /\ Z.to_int z <> Decimal.Neg Decimal.Nil.
Proof.
  destruct z as [|p|p]; simpl; split; try discriminate;
    intros E; injection E as E; now apply DecimalPos.Unsigned.to_uint_nonnil in E.
Qed.

(** X21: identifiers made from the clock tell the readings apart: two
    tasks get the same identifier only when created at the same reading of
    the clock, and so do two accounts. *)
Theorem clock_ids_injective (m n : Z) :
  (taskId m = taskId n -> m = n)
  /\ (toString36 m = toString36 n -> m = n).
Proof.
  split; [|apply toString36_injective].
  unfold taskId. intros E. injection E as E.
  apply (f_equal NilZero.int_of_string) in E.
  destruct (to_int_not_nil m) as [Hm1 Hm2], (to_int_not_nil n) as [Hn1 Hn2].
  rewrite !NilZero.isi in E by assumption.
  injection E as E. now apply DecimalZ.to_int_inj.
Qed.
